(** * YSO (YumStudio Object) text format: a shallow embedding of ysocxx.hpp

    The development embeds the C++ header [src/ysocxx/ysocxx.hpp]:
    the two containers [YSOSection] and [YumStudioObject], the serializer
    ([pack], [to_string], [save]) and the line-oriented parser ([trim],
    [parse_section], [parse]).

    - [std::string] is [string]; [size_t] values are [Z] with the 64-bit
      wrap-around written out, [npos] is [2^64 - 1].
    - [std::unordered_map] is stdpp's [gmap]; its iteration order is not
      specified by the language, so the serializer is parameterised over the
      enumeration it walks.
    - [std::istream] is a buffer of unread characters with its [eofbit] and
      [failbit]; [std::getline] is a function on that state.
    - C++ exceptions are an explicit [result]; the two [while] loops around
      [std::getline] take fuel, and [parse] supplies enough of it. *)

From Stdlib Require Import ZArith Lia Ascii String List Bool.
From stdpp Require Import base option gmap strings list fin_maps.

Local Open Scope Z_scope.

(** ** Exceptions *)

Inductive exception : Type :=
  | out_of_range (what : string)
  | runtime_error (what : string).

Inductive result (A : Type) : Type :=
  | Ok (a : A)
  | Throw (e : exception).
Arguments Ok {A} a.
Arguments Throw {A} e.

(** The spec's error taxonomy: [KeyNotFound] is [std::out_of_range],
    [MalformedInput] is the [std::runtime_error] raised while parsing. *)
Definition KeyNotFound (e : exception) : Prop :=
  match e with out_of_range _ => True | runtime_error _ => False end.
Definition MalformedInput (e : exception) : Prop :=
  match e with runtime_error _ => True | out_of_range _ => False end.

Definition fails_with {A} (P : exception → Prop) (r : result A) : Prop :=
  match r with Throw e => P e | Ok _ => False end.

(** A computation that may run out of fuel ([None]) or finish with a value
    or an exception. *)
Abbreviation outcome A := (option (result A)).

Notation "'try!' x ← e ; k" :=
  (match e with Ok x => k | Throw ex => Some (Throw ex) end)
  (at level 20, x pattern, e at level 100, k at level 200, only parsing).

(** ** std::string *)

Module StdString.

Definition size_t_modulus : Z := 2 ^ 64.
Definition npos : Z := size_t_modulus - 1.
(** Unsigned arithmetic on [size_t]. *)
Definition wrap (z : Z) : Z := z mod size_t_modulus.

Definition size (s : string) : Z := Z.of_nat (String.length s).

(** [s[i]]; [s[s.size()]] is the null character. *)
Definition at_index (s : string) (i : Z) : ascii :=
  match String.get (Z.to_nat i) s with
  | Some c => c
  | None => "000"%char
  end.

(** Offset of the first [c] in [s], counted from [i]. *)
Fixpoint index_of_char (c : ascii) (s : string) (i : Z) : Z :=
  match s with
  | EmptyString => npos
  | String a s' => if Ascii.eqb a c then i else index_of_char c s' (i + 1)
  end.

Fixpoint skip (n : nat) (s : string) : string :=
  match n, s with
  | O, _ => s
  | S n', String _ s' => skip n' s'
  | S _, EmptyString => EmptyString
  end.

Fixpoint keep (n : nat) (s : string) : string :=
  match n, s with
  | S n', String a s' => String a (keep n' s')
  | _, _ => EmptyString
  end.

(** [s.find(c, pos)] *)
Definition find_char (s : string) (c : ascii) (pos : Z) : Z :=
  if size s <? pos then npos
  else index_of_char c (skip (Z.to_nat pos) s) pos.

Fixpoint index_of_str (pat s : string) (i : Z) : Z :=
  if String.prefix pat s then i
  else match s with
       | EmptyString => npos
       | String _ s' => index_of_str pat s' (i + 1)
       end.

(** [s.find(pat)] *)
Definition find_str (s pat : string) : Z := index_of_str pat s 0.

(** [s.substr(pos, len)]: throws [std::out_of_range] when [pos > size()],
    otherwise the characters [pos, pos + min(len, size() - pos)). *)
Definition substr (s : string) (pos len : Z) : result string :=
  if size s <? pos then Throw (out_of_range "basic_string::substr")
  else Ok (keep (Z.to_nat (Z.min len (size s - pos))) (skip (Z.to_nat pos) s)).

End StdString.
Import StdString.

(** ** std::istream and std::getline *)

Module IStream.

Record istream : Type := mk_istream {
  buf : string;       (* characters not read yet *)
  eofbit : bool;
  failbit : bool
}.

(** A freshly opened stream over [text] (an [std::istringstream], or an
    [std::ifstream] on a file holding [text]). *)
Definition open (text : string) : istream :=
  {| buf := text; eofbit := false; failbit := false |}.

Definition eof (src : istream) : bool := eofbit src.
(** [static_cast<bool>(src)] is [!src.fail()]. *)
Definition good (src : istream) : bool := negb (failbit src).

Definition newline : ascii := "010"%char.

(** Characters up to the first newline, and what follows the newline when
    there is one. *)
Fixpoint read_line (s : string) : string * option string :=
  match s with
  | EmptyString => (EmptyString, None)
  | String c s' =>
      if Ascii.eqb c newline then (EmptyString, Some s')
      else let (l, r) := read_line s' in (String c l, r)
  end.

(** [std::getline(src, line)]: the new stream state and, when the call
    leaves the stream good, the line read.  The sentry fails on a stream
    that is not good; otherwise characters are extracted up to a newline
    (dropped) or to end of file (which sets [eofbit]); extracting nothing
    sets [failbit]. *)
Definition getline (src : istream) : istream * option string :=
  if eofbit src || failbit src then
    ({| buf := buf src; eofbit := eofbit src; failbit := true |}, None)
  else
    match read_line (buf src) with
    | (l, Some rest) =>
        ({| buf := rest; eofbit := false; failbit := false |}, Some l)
    | (EmptyString, None) =>
        ({| buf := EmptyString; eofbit := true; failbit := true |}, None)
    | (l, None) =>
        ({| buf := EmptyString; eofbit := true; failbit := false |}, Some l)
    end.

(** What is left to read: the measure that every successful [getline]
    decreases. *)
Definition pending (src : istream) : nat :=
  if eofbit src || failbit src then O else S (String.length (buf src)).

End IStream.
Import IStream.

(** ** The format's constants *)

Definition dquote : ascii := "034"%char.
(** [#define YSO_MULLN_STR] : three double quotes. *)
Definition YSO_MULLN_STR : string :=
  String dquote (String dquote (String dquote EmptyString)).

(** ** class YSOSection *)

Module YSOSection.

(** The private member [map]. *)
Abbreviation t := (gmap string string).

Definition pack (str : string) : string :=
  if negb (find_char str newline 0 =? npos)
  then YSO_MULLN_STR +:+ str +:+ YSO_MULLN_STR
  else str.

Definition contains (map : t) (key : string) : bool :=
  bool_decide (is_Some (map !! key)).

(** [operator[]] (non-const) followed by an assignment: [map[key] = v]. *)
Definition assign (map : t) (key v : string) : t := <[key := v]> map.

(** [operator[]] (non-const) used as a read: a missing key is created with
    the empty string. *)
Definition index (map : t) (key : string) : string * t :=
  match map !! key with
  | Some v => (v, map)
  | None => (EmptyString, <[key := EmptyString]> map)
  end.

(** [operator[] const] *)
Definition index_const (map : t) (key : string) : result string :=
  if contains map key then
    match map !! key with
    | Some v => Ok v
    | None => Throw (out_of_range "unordered_map::at")
    end
  else Throw (out_of_range ("YumStudioObject: key not found '" +:+ key +:+ "'")).

(** The loop of [to_string] over the entries in the order the container
    enumerates them: [s += k + ":" + v + "\n"]. *)
Definition to_string_over (entries : list (string * string)) : string :=
  fold_left (λ s kv, s +:+ (kv.1 +:+ ":" +:+ kv.2 +:+ String newline EmptyString))
            entries EmptyString.

(** [to_string]: the source runs the loop above into a local [s] and ends
    there: the function has no [return] statement, and flowing off the end
    of a function that returns a [std::string] is undefined behaviour.  The
    call has no defined result, whatever the map holds: [None].
    ([map_to_list] stands for the container's own enumeration.) *)
Definition to_string (map : t) : option string :=
  let s := to_string_over (map_to_list map) in None.

End YSOSection.

(** ** class YumStudioObject *)

Module YumStudioObject.

(** The private member [sections]. *)
Abbreviation t := (gmap string YSOSection.t).

(** [std::isspace] in the "C" locale: space, \t, \n, \v, \f, \r; no
    character above 127 is white space. *)
Definition isspace (c : ascii) : bool :=
  let n := N_of_ascii c in ((9 <=? n) && (n <=? 13) || (n =? 32))%N.

(** [std::find_if_not(first, last, p) - first] *)
Fixpoint find_if_not (p : ascii → bool) (s : string) : nat :=
  match s with
  | EmptyString => O
  | String c s' => if p c then S (find_if_not p s') else O
  end.

Definition trim (s : string) : string :=
  let wsfront := find_if_not isspace s in
  let wsback := (String.length s - find_if_not isspace (String.rev s))%nat in
  if (wsback <=? wsfront)%nat then EmptyString
  else keep (wsback - wsfront) (skip wsfront s).

Definition contains (sections : t) (section : string) : bool :=
  bool_decide (is_Some (sections !! section)).

(** [operator[] const] *)
Definition index_const (sections : t) (section : string) : result YSOSection.t :=
  if contains sections section then
    match sections !! section with
    | Some v => Ok v
    | None => Throw (out_of_range "unordered_map::at")
    end
  else Throw (out_of_range ("YumStudioObject: key not found '" +:+ section +:+ "'")).

(** [operator[]] (non-const) followed by an assignment:
    [sections[section] = v]. *)
Definition assign (sections : t) (section : string) (v : YSOSection.t) : t :=
  <[section := v]> sections.

(** [operator[]] (non-const) used as a read: a missing section is created
    empty. *)
Definition index (sections : t) (section : string) : YSOSection.t * t :=
  match sections !! section with
  | Some v => (v, sections)
  | None => (∅, <[section := ∅]> sections)
  end.

(** What [save] writes after the header line, walking the sections in the
    given order: ["[" name "]\n"], the section's [to_string], [std::endl].
    It is defined only as far as the calls to [to_string] are. *)
Definition save_sections (sections : list (string * YSOSection.t)) : option string :=
  fold_left (λ file section,
               match file, YSOSection.to_string section.2 with
               | Some file, Some body =>
                   Some (file +:+ "[" +:+ section.1 +:+ "]" +:+ String newline EmptyString
                              +:+ body +:+ String newline EmptyString)
               | _, _ => None
               end)
            sections (Some EmptyString).

(** [save]: [writable] tells whether [std::ofstream file(path)] opens; the
    result is the text written to the file, an exception, or [None] where
    the behaviour of the source is undefined. *)
Definition save (writable : bool) (sections : t) (path header : string)
  : option (result string) :=
  if negb writable then Some (Throw (runtime_error ("File not found: " +:+ path)))
  else match save_sections (map_to_list sections) with
       | Some body => Some (Ok (header +:+ String newline EmptyString +:+ body))
       | None => None
       end.

(** The inner loop of [parse_section]:
    [while (std::getline(src, line) && (!found)) { ... }].  The call to
    [std::getline] comes first in the condition, so the iteration that ends
    the loop because [found] is set has already taken one more line. *)
Fixpoint collect_multiline (fuel : nat) (src : istream) (value : string) (found : bool)
  : outcome (istream * string) :=
  match fuel with
  | O => None
  | S fuel' =>
      match getline src with
      | (src, None) => Some (Ok (src, value))
      | (src, Some line) =>
          if negb found then
            if eof src && negb found
            then Some (Throw (runtime_error ("expected '" +:+ YSO_MULLN_STR +:+ "'")))
            else if negb (find_str line YSO_MULLN_STR =? npos) then
              let end_ := find_str line YSO_MULLN_STR in
              try! head ← substr line 0 end_;
              collect_multiline fuel' src (value +:+ head) true
            else collect_multiline fuel' src (value +:+ line) found
          else Some (Ok (src, value))
      end
  end.

(** The condition of the [if] in [parse_section]'s loop, with the source's
    operator precedence ([&&] binds tighter than [||]). *)
Definition is_key_value_line (line : string) : bool :=
  (0 <=? size line) && negb (Ascii.eqb (at_index line 0) "#")
  || negb (Ascii.eqb (at_index line 0) ";") && negb (find_char line ":" 0 =? npos).

(** The outer loop of [parse_section]: [while (std::getline(src, line)) { ... }]. *)
Fixpoint parse_section_loop (fuel : nat) (src : istream) (section : YSOSection.t)
  : outcome (istream * YSOSection.t) :=
  match fuel with
  | O => None
  | S fuel' =>
      match getline src with
      | (src, None) => Some (Ok (src, section))
      | (src, Some line) =>
          let line := trim line in
          if is_key_value_line line then
            let nameend := find_char line ":" 0 in
            try! name ← substr line 0 nameend;
            try! value ← substr line (wrap (nameend + 1)) npos;
            if negb (find_str value YSO_MULLN_STR =? npos) then
              match collect_multiline fuel' src value false with
              | None => None
              | Some (Throw e) => Some (Throw e)
              | Some (Ok (src, value)) => parse_section_loop fuel' src section
              end
            else
              parse_section_loop fuel' src (YSOSection.assign section name (trim value))
          else parse_section_loop fuel' src section
      end
  end.

Definition parse_section (fuel : nat) (src : istream) : outcome (istream * YSOSection.t) :=
  parse_section_loop fuel src ∅.

(** The condition of the [if] in [parse]'s loop. *)
Definition is_header_line (line : string) : bool :=
  (0 <? size line) && negb (Ascii.eqb (at_index line 0) "#")
  && negb (Ascii.eqb (at_index line 0) ";") && negb (find_char line "[" 0 =? npos).

(** The loop of [parse]. *)
Fixpoint parse_loop (fuel : nat) (src : istream) (object : t) : outcome t :=
  match fuel with
  | O => None
  | S fuel' =>
      match getline src with
      | (src, None) => Some (Ok object)
      | (src, Some line) =>
          let line := trim line in
          if is_header_line line then
            let beg := find_char line "[" 0 in
            let end_ := find_char line "]" beg in
            if end_ =? npos
            then Some (Throw (runtime_error "YumStudioObject: Expected ']'"))
            else
              try! name ← substr line (wrap (beg + 1)) (wrap (end_ - (beg + 1)));
              let sectionname := trim name in
              match parse_section fuel' src with
              | None => None
              | Some (Throw e) => Some (Throw e)
              | Some (Ok (src, section)) =>
                  parse_loop fuel' src (<[sectionname := section]> object)
              end
          else parse_loop fuel' src object
      end
  end.

(** Every iteration of either loop takes at least one character off the
    stream, so this much fuel is never used up (see [parse_loop_fuel]). *)
Definition fuel_for (src : istream) : nat := S (pending src).

Definition parse (src : istream) : outcome t := parse_loop (fuel_for src) src ∅.

End YumStudioObject.

(** ** Building test inputs *)

(** The text whose lines are [ls], each terminated by a newline. *)
Definition text_of_lines (ls : list string) : string :=
  fold_right (λ l text, l +:+ String newline text) EmptyString ls.

(** The same text without the newline after its last line. *)
Fixpoint text_of_lines_open (ls : list string) : string :=
  match ls with
  | [] => EmptyString
  | [l] => l
  | l :: ls' => l +:+ String newline (text_of_lines_open ls')
  end.

Import YumStudioObject.

(** ** Vocabulary of the statements *)

(** Strings made of white space only. *)
Fixpoint all_space (s : string) : Prop :=
  match s with
  | EmptyString => True
  | String c s' => isspace c = true ∧ all_space s'
  end.

(** Strings that neither start nor end with white space. *)
Definition trimmed (s : string) : Prop :=
  s = EmptyString ∨
  (∃ c s', s = String c s' ∧ isspace c = false) ∧
  (∃ c s', String.rev s = String c s' ∧ isspace c = false).

(** [c] occurs in [s]. *)
Fixpoint has_char (c : ascii) (s : string) : bool :=
  match s with
  | EmptyString => false
  | String a s' => Ascii.eqb a c || has_char c s'
  end.

(** The condition for a key/value line in the words of the design notes:
    [(first_char != '#' && first_char != ';') || has_colon]. *)
Definition spec_key_value_condition (line : string) : bool :=
  negb (Ascii.eqb (at_index line 0) "#") && negb (Ascii.eqb (at_index line 0) ";")
  || negb (find_char line ":" 0 =? npos).

(** The opening line of a multi-line value: [key:] followed by the marker. *)
Definition multiline_open (key : string) : string := key +:+ ":" +:+ YSO_MULLN_STR.

(** The "concrete scenario" of the testable properties. *)
Definition scenario_lines : list string :=
  ["[general]"; "name:demo"; multiline_open "desc"; "hello"; "world"; YSO_MULLN_STR].

(** The "unterminated multi-line value" input of the testable properties. *)
Definition unterminated_lines : list string :=
  ["[S]"; multiline_open "k"; "abc"].

(** What [parse] throws for a multi-line value it finds unterminated. *)
Definition expected_marker : exception :=
  runtime_error ("expected '" +:+ YSO_MULLN_STR +:+ "'").

(** The stream state after [std::getline] has read a last line that no
    newline terminates. *)
Definition at_eof : istream :=
  {| buf := EmptyString; eofbit := true; failbit := false |}.

(** The stream state after a [std::getline] that found nothing to read. *)
Definition exhausted : istream :=
  {| buf := EmptyString; eofbit := true; failbit := true |}.

(** The line the loop of [to_string] builds for an entry, without its
    newline. *)
Definition entry_line (kv : string * string) : string := kv.1 +:+ ":" +:+ kv.2.

(** The line [save] writes for a section name, without its newline. *)
Definition header_line (name : string) : string := "[" +:+ name +:+ "]".

(** [section[k] = v] for each entry in turn. *)
Definition store_entries (entries : list (string * string)) (section : YSOSection.t)
  : YSOSection.t :=
  fold_left (λ m kv, YSOSection.assign m kv.1 kv.2) entries section.

(** An entry that [parse_section] reads back from the line the loop of
    [to_string] builds for it: key and value hold no newline, the key holds no colon,
    the value does not contain the marker and has no white space around it,
    the line does not start with white space, and the line is no longer
    than a [size_t] can tell. *)
Definition plain_entry (kv : string * string) : Prop :=
  has_char newline kv.1 = false ∧ has_char ":" kv.1 = false
  ∧ has_char newline kv.2 = false ∧ find_str kv.2 YSO_MULLN_STR = npos
  ∧ trimmed kv.2 ∧ trimmed (entry_line kv) ∧ size (entry_line kv) ≤ npos.

(** What [parse] makes of the result of [parse_section] for a header
    naming [name]. *)
Definition section_named (name : string) (r : result (istream * YSOSection.t))
  : result YumStudioObject.t :=
  match r with
  | Ok (_, section) => Ok {[ name := section ]}
  | Throw e => Throw e
  end.

(** The lines [ls] one after the other, as [value += line] leaves them. *)
Definition appended (ls : list string) : string :=
  fold_right String.append EmptyString ls.

(** A line of a multi-line value that does not end it. *)
Definition content_line (l : string) : Prop :=
  has_char newline l = false ∧ find_str l YSO_MULLN_STR = npos.

(** A line the loop of [parse] passes over: it is one line, and it is not
    taken for a section header. *)
Definition ignored_line (l : string) : Prop :=
  has_char newline l = false ∧ is_header_line (trim l) = false.

(** Strings that do not start with white space. *)
Definition no_leading_space (s : string) : Prop :=
  match s with
  | EmptyString => True
  | String c _ => isspace c = false
  end.

(** What holds of every entry [parse_section] stores: the key has no colon
    and no white space in front, the value has no white space around it. *)
Definition parsed_section (section : YSOSection.t) : Prop :=
  map_Forall (λ k v, has_char ":" k = false ∧ no_leading_space k ∧ trimmed v) section.

(** What holds of every section [parse] stores. *)
Definition parsed_object (object : YumStudioObject.t) : Prop :=
  map_Forall (λ name section, trimmed name ∧ parsed_section section) object.

(** * Properties *)

(** ** The stream *)

Section Stream.

Lemma read_line_length s l r :
  read_line s = (l, r) →
  match r with
  | Some rest => (String.length rest < String.length s)%nat
  | None => l = s
  end.
Proof.
  revert l r. induction s as [|c s IH]; intros l r; simpl.
  - intros [= <- <-]. reflexivity.
  - destruct (Ascii.eqb c newline).
    + intros [= <- <-]. simpl. lia.
    + destruct (read_line s) as [l' r'] eqn:E. intros [= <- <-].
      specialize (IH _ _ eq_refl). destruct r'; simpl; [lia | congruence].
Qed.

(** A failed [getline] leaves [failbit] set. *)
Lemma getline_None src src' :
  getline src = (src', None) → failbit src' = true.
Proof.
  unfold getline. destruct (eofbit src || failbit src).
  - intros [= <-]. reflexivity.
  - destruct (read_line (buf src)) as [[|c l] [rest|]]; intros [= <-]; reflexivity.
Qed.

(** A successful [getline] takes something off the stream. *)
Lemma getline_Some src src' line :
  getline src = (src', Some line) → (pending src' < pending src)%nat.
Proof.
  unfold getline, pending. destruct (eofbit src || failbit src); [discriminate|].
  destruct (read_line (buf src)) as [[|c l] [rest|]] eqn:E;
    intros [= <- <-]; simpl; apply read_line_length in E; lia.
Qed.

(** Once [failbit] is set every later [getline] fails. *)
Lemma getline_failed src :
  failbit src = true → ∃ src', getline src = (src', None) ∧ failbit src' = true.
Proof.
  intros H. unfold getline. rewrite H, orb_true_r. eauto.
Qed.

End Stream.

(** ** std::string positions *)

Section Positions.

Lemma size_nonneg s : 0 ≤ size s.
Proof. unfold size. lia. Qed.

Lemma index_of_char_range c s i :
  index_of_char c s i = npos ∨ i ≤ index_of_char c s i < i + size s.
Proof.
  revert i. induction s as [|a s IH]; intros i; simpl; [by left|].
  unfold size in *. simpl String.length.
  destruct (Ascii.eqb a c); [right; lia|].
  destruct (IH (i + 1)) as [->|?]; [by left | right; lia].
Qed.

(** [s.find(c)] is [npos] or a position inside [s]. *)
Lemma find_char_range s c :
  find_char s c 0 = npos ∨ 0 ≤ find_char s c 0 < size s.
Proof.
  unfold find_char. pose proof (size_nonneg s).
  destruct (size s <? 0) eqn:E; [lia|]. simpl. apply index_of_char_range.
Qed.

Lemma wrap_npos_succ : wrap (npos + 1) = 0.
Proof. reflexivity. Qed.

(** One past a position found by [find], as a [size_t], never lies beyond
    the end of the string: [npos + 1] wraps to [0]. *)
Lemma wrap_succ_find_le s c : 0 ≤ wrap (find_char s c 0 + 1) ≤ size s.
Proof.
  pose proof (size_nonneg s).
  destruct (find_char_range s c) as [->|Hr].
  - rewrite wrap_npos_succ. lia.
  - unfold wrap. split.
    + apply Z.mod_pos_bound. reflexivity.
    + etrans; [apply Z.mod_le; [lia | reflexivity]|]. lia.
Qed.

Lemma substr_in_range s pos len :
  pos ≤ size s → ∃ t, substr s pos len = Ok t.
Proof.
  intros H. unfold substr. destruct (size s <? pos) eqn:E; [lia|]. eauto.
Qed.

Lemma substr_after_find s c len :
  ∃ t, substr s (wrap (find_char s c 0 + 1)) len = Ok t.
Proof. apply substr_in_range, wrap_succ_find_le. Qed.

Lemma substr_from_start s len : ∃ t, substr s 0 len = Ok t.
Proof. apply substr_in_range, size_nonneg. Qed.

End Positions.

(** ** The loops return *)

Section Termination.

Lemma collect_multiline_total fuel : ∀ src value found,
  (pending src < fuel)%nat →
  ∃ r, collect_multiline fuel src value found = Some r ∧
       match r with
       | Ok (src', _) => (pending src' ≤ pending src)%nat
       | Throw e => MalformedInput e
       end.
Proof.
  induction fuel as [|fuel IH]; intros src value found Hf; [lia|].
  simpl. destruct (getline src) as [src1 [line|]] eqn:G.
  - apply getline_Some in G.
    destruct found; simpl; [eexists; split; [done|simpl; lia]|].
    destruct (eof src1 && true); [eexists; split; [done|exact I]|].
    destruct (negb _).
    + destruct (substr_from_start line (find_str line YSO_MULLN_STR)) as [t ->].
      destruct (IH src1 (value +:+ t) true) as (r & -> & Hr); [lia|].
      eexists; split; [done|]. destruct r as [[? ?]|]; [lia|done].
    + destruct (IH src1 (value +:+ line) false) as (r & -> & Hr); [lia|].
      eexists; split; [done|]. destruct r as [[? ?]|]; [lia|done].
  - apply getline_None in G. eexists; split; [done|].
    unfold pending at 1. rewrite G, orb_true_r. lia.
Qed.

(** [parse_section] returns only once [std::getline] has failed: the
    stream it leaves behind has [failbit] set. *)
Lemma parse_section_loop_total fuel : ∀ src section,
  (pending src < fuel)%nat →
  ∃ r, parse_section_loop fuel src section = Some r ∧
       match r with
       | Ok (src', _) => failbit src' = true
       | Throw e => MalformedInput e
       end.
Proof.
  induction fuel as [|fuel IH]; intros src section Hf; [lia|].
  simpl. destruct (getline src) as [src1 [line|]] eqn:G.
  - apply getline_Some in G.
    destruct (is_key_value_line (trim line)); [|apply IH; lia].
    destruct (substr_from_start (trim line) (find_char (trim line) ":" 0)) as [name ->].
    destruct (substr_after_find (trim line) ":" npos) as [value ->].
    destruct (negb _); [|apply IH; lia].
    destruct (collect_multiline_total fuel src1 value false) as (r & -> & Hr); [lia|].
    destruct r as [[src2 value']|e]; [apply IH; lia|].
    eexists; split; [done|done].
  - apply getline_None in G. eexists; split; [done|done].
Qed.

(** Entries are only added or overwritten while a section is parsed. *)
Lemma parse_section_loop_keeps fuel : ∀ src section src' section' key,
  parse_section_loop fuel src section = Some (Ok (src', section')) →
  is_Some (section !! key) → is_Some (section' !! key).
Proof.
  induction fuel as [|fuel IH]; intros src section src' section' key; [done|].
  simpl. destruct (getline src) as [src1 [line|]].
  - destruct (is_key_value_line (trim line)); [|apply IH].
    destruct (substr _ 0 _) as [name|]; [|done].
    destruct (substr _ (wrap _) _) as [value|]; [|done].
    destruct (negb _).
    + destruct (collect_multiline fuel src1 value false) as [[[src2 v]|]|];
        [apply IH|done|done].
    + intros H Hkey. apply (IH _ _ _ _ _ H). unfold YSOSection.assign.
      destruct (decide (name = key)) as [->|Hne].
      * rewrite lookup_insert_eq. eauto.
      * by rewrite lookup_insert_ne.
  - by intros [= <- <-].
Qed.

Lemma parse_loop_failed fuel src object :
  failbit src = true → parse_loop (S fuel) src object = Some (Ok object).
Proof.
  intros H. simpl. destruct (getline_failed src H) as (src' & -> & _). done.
Qed.

(** [parse] returns, and what it returns is the object it started from with
    at most one section stored into it. *)
Lemma parse_loop_total fuel : ∀ src object,
  (pending src < fuel)%nat →
  ∃ r, parse_loop fuel src object = Some r ∧
       match r with
       | Ok o => o = object ∨ ∃ name section, o = <[name := section]> object
       | Throw e => MalformedInput e
       end.
Proof.
  induction fuel as [|fuel IH]; intros src object Hf; [lia|].
  simpl. destruct (getline src) as [src1 [line|]] eqn:G.
  - apply getline_Some in G.
    destruct (is_header_line (trim line)) eqn:Hh; [|apply IH; lia].
    destruct (_ =? npos); [eexists; split; [done|done]|].
    destruct (substr_after_find (trim line) "["
                (wrap (find_char (trim line) "]" (find_char (trim line) "[" 0)
                       - (find_char (trim line) "[" 0 + 1)))) as [name ->].
    unfold parse_section.
    destruct (parse_section_loop_total fuel src1 ∅) as (r & -> & Hr); [lia|].
    destruct r as [[src2 section]|e]; [|eexists; split; [done|done]].
    destruct fuel as [|fuel']; [lia|]. rewrite parse_loop_failed by done.
    eexists; split; [done|]. right. eauto.
  - eexists; split; [done|]. by left.
Qed.

Lemma fuel_for_enough src : (pending src < fuel_for src)%nat.
Proof. unfold fuel_for. lia. Qed.

End Termination.

(** ** trim *)

Section Trim.

Lemma app_nil_l s : EmptyString +:+ s = s.
Proof. reflexivity. Qed.

Lemma app_cons a s t : String a s +:+ t = String a (s +:+ t).
Proof. reflexivity. Qed.

Lemma app_nil_r s : s +:+ EmptyString = s.
Proof. induction s as [|a s IH]; [done|]. by rewrite app_cons, IH. Qed.

Lemma app_assoc s t u : (s +:+ t) +:+ u = s +:+ (t +:+ u).
Proof. induction s as [|a s IH]; [done|]. by rewrite !app_cons, IH. Qed.

Lemma length_app s t :
  String.length (s +:+ t) = (String.length s + String.length t)%nat.
Proof. induction s as [|a s IH]; [done|]. rewrite app_cons. simpl. by rewrite IH. Qed.

Lemma rev_app_eq s t : String.rev_app s t = String.rev s +:+ t.
Proof.
  revert t. induction s as [|a s IH]; intros t; [done|].
  unfold String.rev. simpl. rewrite (IH (String a EmptyString)), IH.
  by rewrite app_assoc.
Qed.

Lemma rev_cons a s : String.rev (String a s) = String.rev s +:+ String a EmptyString.
Proof. unfold String.rev at 1. simpl. apply rev_app_eq. Qed.

Lemma rev_app_distr s t : String.rev (s +:+ t) = String.rev t +:+ String.rev s.
Proof.
  induction s as [|a s IH]; [by rewrite app_nil_l, app_nil_r|].
  by rewrite app_cons, !rev_cons, IH, app_assoc.
Qed.

Lemma rev_involutive s : String.rev (String.rev s) = s.
Proof.
  induction s as [|a s IH]; [done|].
  by rewrite rev_cons, rev_app_distr, IH.
Qed.

Lemma length_rev s : String.length (String.rev s) = String.length s.
Proof.
  induction s as [|a s IH]; [done|].
  rewrite rev_cons, length_app, IH. simpl. lia.
Qed.

Lemma skip_app s t : skip (String.length s) (s +:+ t) = t.
Proof. induction s as [|a s IH]; [by destruct t|]. by rewrite app_cons. Qed.

Lemma keep_app s t : keep (String.length s) (s +:+ t) = s.
Proof.
  induction s as [|a s IH]; [by destruct t|].
  rewrite app_cons. simpl. by rewrite IH.
Qed.

Lemma keep_all s : keep (String.length s) s = s.
Proof. rewrite <- (app_nil_r s) at 2. apply keep_app. Qed.

Lemma all_space_app s t : all_space (s +:+ t) ↔ all_space s ∧ all_space t.
Proof.
  induction s as [|a s IH]; [rewrite app_nil_l; simpl; tauto|].
  rewrite app_cons. simpl. tauto.
Qed.

Lemma all_space_rev s : all_space s → all_space (String.rev s).
Proof.
  induction s as [|a s IH]; [done|]. intros [Ha Hs].
  rewrite rev_cons. apply all_space_app. simpl. auto.
Qed.

Lemma find_if_not_all_space s :
  all_space s → find_if_not isspace s = String.length s.
Proof.
  induction s as [|a s IH]; [done|]. intros [Ha Hs]. simpl.
  by rewrite Ha, IH.
Qed.

Lemma find_if_not_stop s c t :
  all_space s → isspace c = false →
  find_if_not isspace (s +:+ String c t) = String.length s.
Proof.
  intros Hs Hc. induction s as [|a s IH].
  - rewrite app_nil_l. simpl. by rewrite Hc.
  - destruct Hs as [Ha Hs]. rewrite app_cons. simpl. by rewrite Ha, IH.
Qed.

(** White space, then a first character that is none, then the rest. *)
Lemma leading_space s :
  ∃ a r, s = a +:+ r ∧ all_space a ∧
         (r = EmptyString ∨ ∃ c r', r = String c r' ∧ isspace c = false).
Proof.
  induction s as [|c s (a & r & -> & Ha & Hr)].
  - exists EmptyString, EmptyString. repeat split. by left.
  - destruct (isspace c) eqn:Hc.
    + exists (String c a), r. repeat split; done.
    + exists EmptyString, (String c (a +:+ r)). repeat split. right. eauto.
Qed.

Lemma trim_frame a core b :
  all_space a → all_space b → trimmed core → trim (a +:+ core +:+ b) = core.
Proof.
  intros Ha Hb [->|[(c & core' & Hc & Hsp) (d & q & Hd & Hsd)]].
  - rewrite app_nil_l. unfold trim.
    rewrite (find_if_not_all_space (a +:+ b)) by (by apply all_space_app).
    destruct (_ <=? _)%nat eqn:E; [done|]. apply Nat.leb_gt in E. lia.
  - unfold trim.
    assert (find_if_not isspace (a +:+ core +:+ b) = String.length a) as ->.
    { rewrite Hc, app_cons. by apply find_if_not_stop. }
    assert (find_if_not isspace (String.rev (a +:+ core +:+ b)) = String.length b) as ->.
    { rewrite !rev_app_distr, Hd, app_assoc, app_cons, <- (length_rev b).
      apply find_if_not_stop; [by apply all_space_rev | done]. }
    rewrite !length_app, skip_app.
    replace (String.length a + (String.length core + String.length b)
             - String.length b - String.length a)%nat
      with (String.length core) by lia.
    rewrite keep_app.
    destruct (_ <=? _)%nat eqn:E; [|done]. apply Nat.leb_le in E.
    subst core. simpl in E. lia.
Qed.

(** Every string is white space around a trimmed core. *)
Lemma trim_decompose s :
  ∃ a core b, s = a +:+ core +:+ b ∧ all_space a ∧ all_space b ∧ trimmed core.
Proof.
  destruct (leading_space s) as (a & r & -> & Ha & [->|(c & r' & Hr & Hc)]).
  { exists a, EmptyString, EmptyString. repeat split; [done|by left]. }
  destruct (leading_space (String.rev r)) as (b' & q & Hq & Hb' & Hq').
  assert (r = String.rev q +:+ String.rev b') as Hrq.
  { by rewrite <- rev_app_distr, <- Hq, rev_involutive. }
  destruct Hq' as [->|(d & q' & -> & Hd)].
  { rewrite app_nil_l in Hrq. apply all_space_rev in Hb'.
    rewrite <- Hrq, Hr in Hb'. destruct Hb' as [Hb' _]. congruence. }
  exists a, (String.rev (String d q')), (String.rev b').
  split; [by rewrite Hrq|]. split; [done|]. split; [by apply all_space_rev|].
  right. split.
  - destruct (String.rev (String d q')) as [|c0 core'] eqn:E.
    { apply (f_equal String.length) in E. rewrite length_rev in E. done. }
    rewrite Hr, app_cons in Hrq. injection Hrq as -> _. eauto.
  - rewrite rev_involutive. eauto.
Qed.

Lemma trim_trimmed s : trimmed (trim s).
Proof.
  destruct (trim_decompose s) as (a & core & b & -> & Ha & Hb & Hcore).
  by rewrite trim_frame.
Qed.

Lemma trim_of_trimmed s : trimmed s → trim s = s.
Proof.
  intros H. rewrite <- (app_nil_r s) at 1.
  rewrite <- (app_nil_l (s +:+ EmptyString)). by apply trim_frame.
Qed.

(** [trim] is idempotent. *)
Lemma trim_idemp s : trim (trim s) = trim s.
Proof. apply trim_of_trimmed, trim_trimmed. Qed.

End Trim.

(** ** Reading a text line by line *)

Section Lines.

Lemma read_line_terminated l rest :
  has_char newline l = false →
  read_line (l +:+ String newline rest) = (l, Some rest).
Proof.
  induction l as [|a l IH]; intros H; [done|].
  simpl in H. apply orb_false_iff in H as [Ha Hl].
  rewrite app_cons. simpl. by rewrite Ha, IH.
Qed.

Lemma read_line_last l :
  has_char newline l = false → read_line l = (l, None).
Proof.
  induction l as [|a l IH]; intros H; [done|].
  simpl in H. apply orb_false_iff in H as [Ha Hl].
  simpl. by rewrite Ha, IH.
Qed.

Lemma getline_terminated l rest :
  has_char newline l = false →
  getline (open (l +:+ String newline rest)) = (open rest, Some l).
Proof.
  intros H. unfold getline. simpl. rewrite read_line_terminated by done.
  by destruct l.
Qed.

Lemma getline_last l :
  has_char newline l = false → l ≠ EmptyString →
  getline (open l) = (at_eof, Some l).
Proof.
  intros H Hl. unfold getline. simpl. rewrite read_line_last by done.
  by destruct l.
Qed.

Lemma text_of_lines_cons l ls tail :
  text_of_lines (l :: ls) +:+ tail = l +:+ String newline (text_of_lines ls +:+ tail).
Proof. simpl. by rewrite app_assoc, app_cons. Qed.

Lemma length_text_of_lines ls tail :
  (length ls ≤ String.length (text_of_lines ls +:+ tail))%nat.
Proof.
  induction ls as [|l ls IH]; [simpl; lia|].
  rewrite text_of_lines_cons, length_app. simpl. lia.
Qed.

(** The top-level loop passes over the lines that are no section header. *)
Lemma parse_loop_skip_lines pre : ∀ fuel tail object,
  Forall (λ p, has_char newline p = false ∧ is_header_line (trim p) = false) pre →
  (length pre < fuel)%nat →
  parse_loop fuel (open (text_of_lines pre +:+ tail)) object
  = parse_loop (fuel - length pre) (open tail) object.
Proof.
  induction pre as [|p pre IH]; intros fuel tail object Hpre Hf.
  - simpl. rewrite app_nil_l. f_equal. lia.
  - apply Forall_cons in Hpre as [[Hp Hh] Hpre].
    destruct fuel as [|fuel]; [simpl in Hf; lia|].
    rewrite text_of_lines_cons. cbn [parse_loop].
    rewrite getline_terminated by done. rewrite Hh.
    simpl in Hf. rewrite IH by (done || lia). done.
Qed.

End Lines.

(** * The claims *)

(** C1: round trip [parse(render(obj)) == obj].  The code does not have it.
    Take the object with the one section [a] holding [k -> v].  Its text
    in the layout [save] streams is the (empty) header line, the line
    [[a]], the line the loop of [to_string] builds for the entry, and the
    blank separator line.  [parse] reads that text as section [a] with
    [k -> v] and one more entry, the empty key with the empty value, which
    the blank separator line produces in the section body.  The result
    differs from the object. *)
Theorem save_parse_roundtrip_broken :
  let object : YumStudioObject.t := {[ "a" := {[ "k" := "v" ]} ]} in
  let text := text_of_lines [EmptyString; header_line "a"]
              +:+ YSOSection.to_string_over [("k", "v")]
              +:+ String newline EmptyString in
  text = text_of_lines [""; "[a]"; "k:v"; ""]
  ∧ parse (open text) = Some (Ok {[ "a" := <["k" := "v"]> {[ "" := "" ]} ]})
  ∧ parse (open text) ≠ Some (Ok object).
Proof. vm_compute. repeat split; discriminate. Qed.

(** C2: a section body ends at the next section header, so two header lines
    give two sections.  The code does not do this: on the four lines [[a]],
    [x:1], [[b]], [y:2] the body of [a] runs to the end of the stream; the
    line [[b]] becomes an entry of [a] and so does [y:2], and there is no
    section [b]. *)
Theorem parse_second_header_swallowed :
  parse (open (text_of_lines ["[a]"; "x:1"; "[b]"; "y:2"]))
  = Some (Ok {[ "a" := <["x" := "1"]> (<["[b]" := "[b]"]> {[ "y" := "2" ]}) ]}).
Proof. vm_compute. reflexivity. Qed.

(** C3: the concrete scenario should parse to section [general] with
    [name -> demo] and [desc -> hello\nworld].  The code stores no [desc]:
    when every line ends with a newline the result holds [name -> demo]
    only, and when the closing marker line is the last line of the stream
    without a newline after it [parse] throws.  The value the inner loop
    collects (and then drops) is the marker followed by [helloworld]. *)
Theorem parse_scenario_drops_multiline_value :
  parse (open (text_of_lines scenario_lines))
  = Some (Ok {[ "general" := {[ "name" := "demo" ]} ]})
  ∧ parse (open (text_of_lines_open scenario_lines)) = Some (Throw expected_marker)
  ∧ collect_multiline 4 (open (text_of_lines ["hello"; "world"; YSO_MULLN_STR]))
      YSO_MULLN_STR false
    = Some (Ok ({| buf := EmptyString; eofbit := true; failbit := true |},
                YSO_MULLN_STR +:+ "helloworld")).
Proof. vm_compute. repeat split. Qed.

(** C4: a value with a newline should be written between two markers.
    [pack] does that, but the loop of [to_string] never calls it: every
    iteration appends the key, a colon, the value as it is and a newline.
    For the entry [k -> line1\nline2] the loop builds the two lines
    [k:line1] and [line2], not the packed value. *)
Theorem to_string_does_not_pack :
  let v := "line1" +:+ String newline "line2" in
  YSOSection.pack v = YSO_MULLN_STR +:+ v +:+ YSO_MULLN_STR
  ∧ YSOSection.to_string_over [("k", v)] = text_of_lines ["k:line1"; "line2"]
  ∧ YSOSection.to_string_over [("k", v)]
    ≠ "k:" +:+ YSOSection.pack v +:+ String newline EmptyString
  ∧ ∀ entries k v',
      YSOSection.to_string_over (entries ++ [(k, v')])
      = YSOSection.to_string_over entries
        +:+ k +:+ ":" +:+ v' +:+ String newline EmptyString.
Proof.
  split; [reflexivity|]. split; [reflexivity|]. split; [vm_compute; discriminate|].
  intros entries k v'. unfold YSOSection.to_string_over.
  by rewrite fold_left_app.
Qed.

(** C5: an unterminated multi-line value should make [parse] fail.  The
    code throws only when the last line read has no newline after it; for
    the three lines [[S]], [k:] with the marker, [abc], each ended by a
    newline, [parse] returns an object with the empty section [S]. *)
Theorem parse_unterminated_multiline_accepted :
  parse (open (text_of_lines unterminated_lines)) = Some (Ok {[ "S" := ∅ ]})
  ∧ parse (open (text_of_lines_open unterminated_lines)) = Some (Throw expected_marker).
Proof. vm_compute. repeat split. Qed.

(** C6: looking up a section name that is not in an object, or a key that is
    not in a section, through the const [operator[]] throws
    [std::out_of_range] (KeyNotFound); [contains] returns [false] for the
    same arguments (it is a total function to [bool]: it cannot fail). *)
Theorem missing_key_contract
    (object : YumStudioObject.t) (section : YSOSection.t) (name key : string) :
  object !! name = None →
  section !! key = None →
  fails_with KeyNotFound (YumStudioObject.index_const object name)
  ∧ fails_with KeyNotFound (YSOSection.index_const section key)
  ∧ YumStudioObject.contains object name = false
  ∧ YSOSection.contains section key = false.
Proof.
  intros Hn Hk.
  assert (YumStudioObject.contains object name = false) as Hcn.
  { unfold YumStudioObject.contains. apply bool_decide_eq_false.
    rewrite Hn. by intros [? ?]. }
  assert (YSOSection.contains section key = false) as Hck.
  { unfold YSOSection.contains. apply bool_decide_eq_false.
    rewrite Hk. by intros [? ?]. }
  unfold YumStudioObject.index_const, YSOSection.index_const.
  rewrite Hcn, Hck. done.
Qed.

Lemma missing_key_contract_witness :
  let section : YSOSection.t := {[ "name" := "demo" ]} in
  let object : YumStudioObject.t := {[ "general" := section ]} in
  fails_with KeyNotFound (YumStudioObject.index_const object "missing")
  ∧ fails_with KeyNotFound (YSOSection.index_const section "missing")
  ∧ YumStudioObject.contains object "missing" = false
  ∧ YSOSection.contains section "missing" = false.
Proof.
  apply (missing_key_contract {[ "general" := {[ "name" := "demo" ]} ]}
           {[ "name" := "demo" ]} "missing" "missing"); reflexivity.
Defined.

(** C7: an input containing the line [[unclosed] should make [parse] fail
    with MalformedInput.  The code does not do this when a section header
    comes before the line: the test for the closing bracket is made in the
    loop of [parse] only, and the section body takes every line after the
    first header.  On the lines [[general]], [name:demo], [[unclosed]
    (with or without a newline after the last one) [parse] returns an
    object, in which [[unclosed] is a key of the section [general]. *)
Theorem unclosed_header_in_body_accepted :
  let parsed : YumStudioObject.t :=
    {[ "general" := <["name" := "demo"]> {[ "[unclosed" := "[unclosed" ]} ]} in
  parse (open (text_of_lines ["[general]"; "name:demo"; "[unclosed"]))
  = Some (Ok parsed)
  ∧ parse (open (text_of_lines_open ["[general]"; "name:demo"; "[unclosed"]))
    = Some (Ok parsed).
Proof. vm_compute. split; reflexivity. Qed.

(** X20: a line that the top-level loop takes for a section header (not
    empty after trimming, not starting with [#] or [;], containing [[]) and
    that has no []] after its first [[] makes [parse] fail with
    MalformedInput, when no line before it is taken for a header.  The line
    may be the last line of the stream or be followed by more text;
    [[unclosed] is such a line. *)
Theorem parse_unclosed_header (pre : list string) (l rest : string) :
  Forall (λ p, has_char newline p = false ∧ is_header_line (trim p) = false) pre →
  has_char newline l = false →
  is_header_line (trim l) = true →
  find_char (trim l) "]" (find_char (trim l) "[" 0) = npos →
  rest = EmptyString ∨ (∃ r, rest = String newline r) →
  ∃ e, parse (open (text_of_lines pre +:+ l +:+ rest)) = Some (Throw e)
       ∧ MalformedInput e.
Proof.
  intros Hpre Hl Hh Hclose Hrest.
  exists (runtime_error "YumStudioObject: Expected ']'"). split; [|exact I].
  unfold parse, fuel_for, pending. simpl eofbit. simpl failbit. simpl buf.
  simpl orb. cbv iota.
  pose proof (length_text_of_lines pre (l +:+ rest)) as Hlen.
  rewrite parse_loop_skip_lines by (done || lia).
  destruct (_ - _)%nat as [|fuel] eqn:Hfuel; [lia|].
  assert (∃ src, getline (open (l +:+ rest)) = (src, Some l)) as [src G].
  { destruct Hrest as [->|[r ->]].
    - rewrite app_nil_r. eexists. apply getline_last; [done|].
      intros ->. discriminate Hh.
    - eexists. by apply getline_terminated. }
  simpl. rewrite G, Hh, Hclose. reflexivity.
Qed.

Lemma parse_unclosed_header_witness :
  ∃ e, parse (open (text_of_lines ["# settings"; ""] +:+ "[unclosed" +:+ EmptyString))
       = Some (Throw e) ∧ MalformedInput e.
Proof.
  apply (parse_unclosed_header ["# settings"; ""] "[unclosed" EmptyString).
  - repeat constructor.
  - reflexivity.
  - reflexivity.
  - reflexivity.
  - left. reflexivity.
Defined.

Lemma is_key_value_line_eq line :
  is_key_value_line line
  = negb (Ascii.eqb (at_index line 0) "#") || negb (find_char line ":" 0 =? npos).
Proof.
  unfold is_key_value_line.
  assert ((0 <=? size line) = true) as -> by (apply Z.leb_le, size_nonneg).
  destruct (Ascii.eqb (at_index line 0) "#") eqn:E; [|done].
  apply Ascii.eqb_eq in E. rewrite E. done.
Qed.

(** C8 (as the design notes word it: the condition is
    [(first_char != '#' && first_char != ';') || has_colon]) does not hold:
    the line [;abc] satisfies the condition of the code and not that
    expression. *)
Lemma key_value_condition_not_as_worded :
  is_key_value_line ";abc" = true ∧ spec_key_value_condition ";abc" = false.
Proof. split; reflexivity. Qed.

(** C8, amended: the condition under which [parse_section] treats a trimmed
    line as a key/value line is [first_char != '#' || has_colon].  So a line
    starting with [;] is always treated as a key/value line, and a line
    starting with [#] is when it contains a colon. *)
Theorem key_value_condition :
  (∀ line, is_key_value_line line
           = negb (Ascii.eqb (at_index line 0) "#")
             || negb (find_char line ":" 0 =? npos))
  ∧ (∀ rest, is_key_value_line (String ";" rest) = true)
  ∧ is_key_value_line "#a:b" = true.
Proof.
  split; [exact is_key_value_line_eq|]. split; [|reflexivity].
  intros rest. by rewrite is_key_value_line_eq.
Qed.


Lemma substr_whole s :
  size s ≤ npos → substr s 0 npos = Ok s.
Proof.
  intros H. unfold substr. pose proof (size_nonneg s).
  destruct (size s <? 0) eqn:E; [lia|].
  rewrite Z.sub_0_r, Z.min_r by done. unfold size. rewrite Nat2Z.id.
  simpl. by rewrite keep_all.
Qed.

(** C10 (every trimmed line without [:] whose first character is not [#] is
    stored under itself) does not hold for a line that contains the marker:
    the line made of the marker alone has no colon and does not start with
    [#], and the section parsed from it and a closing marker line holds
    nothing. *)
Lemma marker_line_not_stored :
  at_index YSO_MULLN_STR 0 ≠ "#"%char
  ∧ find_char YSO_MULLN_STR ":" 0 = npos
  ∧ trim YSO_MULLN_STR = YSO_MULLN_STR
  ∧ ∃ src', parse_section 4 (open (text_of_lines [YSO_MULLN_STR; YSO_MULLN_STR]))
            = Some (Ok (src', ∅))
            ∧ (∅ : YSOSection.t) !! YSO_MULLN_STR = None.
Proof.
  split; [discriminate|]. split; [reflexivity|]. split; [reflexivity|].
  eexists. split; [vm_compute; reflexivity|reflexivity].
Qed.

(** C10, amended: when the loop of [parse_section] reads a line whose
    trimmed form does not start with [#], contains no [:] and does not
    contain the marker, it stores the trimmed line as an entry whose key and
    value are both the whole trimmed line, and goes on with the next line.
    ([find(':')] returns [npos], [substr(0, npos)] is the whole line and
    [substr(npos + 1)] is [substr(0)].)  Empty lines and lines such as
    [[name]] are of this kind.  The loop then returns, and the section it
    returns has an entry for that key unless an exception ends the parse. *)
Theorem section_line_without_colon
    (fuel : nat) (src src1 : istream) (raw : string) (section : YSOSection.t) :
  getline src = (src1, Some raw) →
  at_index (trim raw) 0 ≠ "#"%char →
  find_char (trim raw) ":" 0 = npos →
  find_str (trim raw) YSO_MULLN_STR = npos →
  size (trim raw) ≤ npos →
  (pending src1 < fuel)%nat →
  parse_section_loop (S fuel) src section
  = parse_section_loop fuel src1 (<[trim raw := trim raw]> section)
  ∧ ∃ r, parse_section_loop (S fuel) src section = Some r ∧
         match r with
         | Ok (_, final) => is_Some (final !! trim raw)
         | Throw e => MalformedInput e
         end.
Proof.
  intros G Hfirst Hcolon Hmarker Hsize Hfuel.
  assert (parse_section_loop (S fuel) src section
          = parse_section_loop fuel src1 (<[trim raw := trim raw]> section)) as Hstep.
  { simpl. rewrite G, is_key_value_line_eq.
    assert (Ascii.eqb (at_index (trim raw) 0) "#" = false) as ->
      by (by apply Ascii.eqb_neq).
    simpl. rewrite Hcolon, wrap_npos_succ, substr_whole by done.
    rewrite Hmarker. simpl. unfold YSOSection.assign. by rewrite trim_idemp. }
  split; [done|]. rewrite Hstep.
  destruct (parse_section_loop_total fuel src1 (<[trim raw := trim raw]> section) Hfuel)
    as (r & Hr & Hshape).
  exists r. split; [done|]. destruct r as [[src' final]|e]; [|done].
  apply (parse_section_loop_keeps _ _ _ _ _ _ Hr).
  rewrite lookup_insert_eq. eauto.
Qed.

Lemma section_line_without_colon_witness :
  parse_section_loop 4 (open (text_of_lines ["[name]"; ""])) {[ "k" := "v" ]}
  = parse_section_loop 3 (open (text_of_lines [""]))
      (<[trim "[name]" := trim "[name]"]> {[ "k" := "v" ]})
  ∧ ∃ r, parse_section_loop 4 (open (text_of_lines ["[name]"; ""])) {[ "k" := "v" ]}
         = Some r ∧
         match r with
         | Ok (_, final) => is_Some (final !! trim "[name]")
         | Throw e => MalformedInput e
         end.
Proof.
  apply (section_line_without_colon 3 (open (text_of_lines ["[name]"; ""]))
           (open (text_of_lines [""])) "[name]" {[ "k" := "v" ]}).
  - reflexivity.
  - discriminate.
  - reflexivity.
  - reflexivity.
  - vm_compute. discriminate.
  - vm_compute. lia.
Defined.

(** * Further properties of the code *)

(** ** Positions found by [find] *)

Section Finding.

Lemma size_app s t : size (s +:+ t) = size s + size t.
Proof. unfold size. rewrite length_app. lia. Qed.

Lemma size_cons a s : size (String a s) = 1 + size s.
Proof. unfold size. simpl String.length. lia. Qed.

Lemma has_char_app c s t : has_char c (s +:+ t) = has_char c s || has_char c t.
Proof.
  induction s as [|a s IH]; [done|].
  rewrite app_cons. simpl. by rewrite IH, orb_assoc.
Qed.

Lemma index_of_char_found c p r i :
  has_char c p = false → index_of_char c (p +:+ String c r) i = i + size p.
Proof.
  revert i. induction p as [|a p IH]; intros i H.
  - rewrite app_nil_l. simpl. rewrite Ascii.eqb_refl. unfold size. simpl. lia.
  - simpl in H. apply orb_false_iff in H as [Ha Hp].
    rewrite app_cons. simpl. rewrite Ha, IH by done. rewrite size_cons. lia.
Qed.

Lemma index_of_char_absent c s i :
  has_char c s = false → index_of_char c s i = npos.
Proof.
  revert i. induction s as [|a s IH]; intros i H; [done|].
  simpl in H. apply orb_false_iff in H as [Ha Hs]. simpl. by rewrite Ha, IH.
Qed.

(** [s.find(c)] when the first [c] comes after the prefix [p]. *)
Lemma find_char_found c p r :
  has_char c p = false → find_char (p +:+ String c r) c 0 = size p.
Proof.
  intros H. unfold find_char. pose proof (size_nonneg (p +:+ String c r)).
  destruct (_ <? 0) eqn:E; [lia|]. simpl. by rewrite index_of_char_found.
Qed.

(** [s.find(c)] when [s] holds no [c]. *)
Lemma find_char_absent c s :
  has_char c s = false → find_char s c 0 = npos.
Proof.
  intros H. unfold find_char. destruct (_ <? 0); [done|].
  simpl. by apply index_of_char_absent.
Qed.

(** [s.find(c, pos)] with [pos] the size of a prefix [p]. *)
Lemma find_char_after p q c :
  find_char (p +:+ q) c (size p) = index_of_char c q (size p).
Proof.
  unfold find_char. rewrite size_app. pose proof (size_nonneg q).
  destruct (_ <? _) eqn:E; [lia|]. unfold size. by rewrite Nat2Z.id, skip_app.
Qed.

Lemma substr_prefix p q :
  substr (p +:+ q) 0 (size p) = Ok p.
Proof.
  unfold substr. pose proof (size_nonneg (p +:+ q)). pose proof (size_nonneg q).
  destruct (_ <? 0) eqn:E; [lia|].
  rewrite Z.sub_0_r, size_app, Z.min_l by lia.
  unfold size. rewrite Nat2Z.id. simpl. by rewrite keep_app.
Qed.

Lemma substr_suffix p q :
  size (p +:+ q) ≤ npos → substr (p +:+ q) (size p) npos = Ok q.
Proof.
  intros Hn. unfold substr. rewrite size_app in *.
  pose proof (size_nonneg p). pose proof (size_nonneg q).
  destruct (_ <? _) eqn:E; [lia|].
  rewrite Z.min_r by lia. unfold size.
  rewrite Nat2Z.id, skip_app.
  replace (Z.of_nat (String.length p) + Z.of_nat (String.length q)
           - Z.of_nat (String.length p)) with (Z.of_nat (String.length q)) by lia.
  by rewrite Nat2Z.id, keep_all.
Qed.

Lemma substr_middle p m q :
  substr (p +:+ m +:+ q) (size p) (size m) = Ok m.
Proof.
  unfold substr. rewrite !size_app.
  pose proof (size_nonneg m). pose proof (size_nonneg q).
  destruct (_ <? _) eqn:E; [lia|]. rewrite Z.min_l by lia.
  unfold size. by rewrite !Nat2Z.id, skip_app, keep_app.
Qed.

Lemma wrap_small z : 0 ≤ z ≤ npos → wrap z = z.
Proof.
  intros H. unfold wrap. apply Z.mod_small. unfold npos in H. lia.
Qed.

End Finding.

(** ** More fuel changes nothing *)

Section Fuel.

Lemma collect_multiline_mono fuel : ∀ fuel' src value found r,
  collect_multiline fuel src value found = Some r → (fuel ≤ fuel')%nat →
  collect_multiline fuel' src value found = Some r.
Proof.
  induction fuel as [|fuel IH]; intros fuel' src value found r; [done|].
  intros H Hle. destruct fuel' as [|fuel']; [lia|].
  simpl in *. destruct (getline src) as [src1 [line|]]; [|done].
  destruct found; simpl in *; [done|].
  destruct (eof src1 && true); [done|].
  destruct (negb _).
  - destruct (substr line 0 _); [|done]. apply IH; [done|lia].
  - apply IH; [done|lia].
Qed.

Lemma parse_section_loop_mono fuel : ∀ fuel' src section r,
  parse_section_loop fuel src section = Some r → (fuel ≤ fuel')%nat →
  parse_section_loop fuel' src section = Some r.
Proof.
  induction fuel as [|fuel IH]; intros fuel' src section r; [done|].
  intros H Hle. destruct fuel' as [|fuel']; [lia|].
  simpl in *. destruct (getline src) as [src1 [line|]]; [|done].
  destruct (is_key_value_line (trim line)); [|apply IH; [done|lia]].
  destruct (substr _ 0 _) as [name|]; [|done].
  destruct (substr _ (wrap _) _) as [value|]; [|done].
  destruct (negb _); [|apply IH; [done|lia]].
  destruct (collect_multiline fuel src1 value false) as [c|] eqn:Hc; [|done].
  rewrite (collect_multiline_mono fuel fuel' _ _ _ _ Hc) by lia.
  destruct c as [[src2 v]|e]; [apply IH; [done|lia]|done].
Qed.

Lemma parse_loop_mono fuel : ∀ fuel' src object r,
  parse_loop fuel src object = Some r → (fuel ≤ fuel')%nat →
  parse_loop fuel' src object = Some r.
Proof.
  induction fuel as [|fuel IH]; intros fuel' src object r; [done|].
  intros H Hle. destruct fuel' as [|fuel']; [lia|].
  simpl in *. destruct (getline src) as [src1 [line|]]; [|done].
  destruct (is_header_line (trim line)); [|apply IH; [done|lia]].
  destruct (_ =? npos); [done|].
  destruct (substr _ _ _) as [name|]; [|done].
  unfold parse_section in *.
  destruct (parse_section_loop fuel src1 ∅) as [c|] eqn:Hc; [|done].
  rewrite (parse_section_loop_mono fuel fuel' _ _ _ Hc) by lia.
  destruct c as [[src2 sec]|e]; [apply IH; [done|lia]|done].
Qed.

(** A result found with some fuel is the result of [parse]. *)
Lemma parse_loop_parse fuel src r :
  parse_loop fuel src ∅ = Some r → parse src = Some r.
Proof.
  intros H. unfold parse.
  destruct (parse_loop_total (fuel_for src) src ∅ (fuel_for_enough src))
    as (r' & Hr' & _).
  destruct (Nat.le_ge_cases fuel (fuel_for src)) as [Hle|Hle].
  - by apply (parse_loop_mono fuel).
  - rewrite Hr'. apply (parse_loop_mono _ fuel) in Hr'; [|done]. congruence.
Qed.

(** The same for [parse_section]. *)
Lemma parse_section_any_fuel fuel src r :
  parse_section fuel src = Some r → parse_section (fuel_for src) src = Some r.
Proof.
  intros H. unfold parse_section in *.
  destruct (parse_section_loop_total (fuel_for src) src ∅ (fuel_for_enough src))
    as (r' & Hr' & _).
  destruct (Nat.le_ge_cases fuel (fuel_for src)) as [Hle|Hle].
  - by apply (parse_section_loop_mono fuel).
  - rewrite Hr'. apply (parse_section_loop_mono _ fuel) in Hr'; [|done]. congruence.
Qed.

End Fuel.

(** ** Lines of a section body *)

Section BodyLines.

(** The line [k:v] is a key/value line whatever it starts with. *)
Lemma entry_line_is_key_value k v :
  has_char ":" k = false → size (k +:+ String ":" v) ≤ npos →
  is_key_value_line (k +:+ String ":" v) = true
  ∧ find_char (k +:+ String ":" v) ":" 0 = size k
  ∧ wrap (size k + 1) = size k + 1.
Proof.
  intros Hk Hsize. rewrite size_app, size_cons in Hsize.
  pose proof (size_nonneg k). pose proof (size_nonneg v).
  rewrite is_key_value_line_eq, find_char_found by done.
  assert ((size k =? npos) = false) as -> by (apply Z.eqb_neq; lia).
  split; [by rewrite orb_true_r|]. split; [done|]. apply wrap_small. lia.
Qed.

Lemma substr_value k v :
  size (k +:+ String ":" v) ≤ npos →
  substr (k +:+ String ":" v) (size k + 1) npos = Ok v.
Proof.
  intros Hsize.
  replace (k +:+ String ":" v) with ((k +:+ ":") +:+ v) in *
    by (by rewrite app_assoc).
  replace (size k + 1) with (size (k +:+ ":"))
    by (rewrite size_app; reflexivity).
  by apply substr_suffix.
Qed.

End BodyLines.

Lemma key_value_line_step
    (fuel : nat) (src src1 : istream) (raw k v : string) (section : YSOSection.t) :
  getline src = (src1, Some raw) →
  trim raw = k +:+ ":" +:+ v →
  has_char ":" k = false →
  find_str v YSO_MULLN_STR = npos →
  size (trim raw) ≤ npos →
  parse_section_loop (S fuel) src section
  = parse_section_loop fuel src1 (<[k := trim v]> section).
Proof.
  intros G Hline Hk Hmarker Hsize.
  change (k +:+ ":" +:+ v) with (k +:+ String ":" v) in Hline.
  rewrite Hline in Hsize.
  destruct (entry_line_is_key_value k v Hk Hsize) as (Hkv & Hfind & Hwrap).
  simpl. rewrite G, Hline, Hkv, Hfind, Hwrap, substr_prefix.
  rewrite substr_value by done. by rewrite Hmarker.
Qed.

(** X1: Every line of a section body that holds a colon whose value part does
    not contain the marker is stored: the key is what comes before the first
    colon (taken from the trimmed line, and not trimmed again on its right),
    the value is what follows that colon, trimmed.  The first character of
    the line plays no part: [#k:v] and [;k:v] are stored as well. *)
Theorem key_value_line_stored
    (fuel : nat) (src src1 : istream) (raw k v : string) (section : YSOSection.t) :
  getline src = (src1, Some raw) →
  trim raw = k +:+ ":" +:+ v →
  has_char ":" k = false →
  find_str v YSO_MULLN_STR = npos →
  size (trim raw) ≤ npos →
  parse_section_loop (S fuel) src section
  = parse_section_loop fuel src1 (<[k := trim v]> section).
Proof. apply key_value_line_step. Qed.

Lemma key_value_line_stored_witness :
  parse_section_loop 3 (open (text_of_lines ["  # a key : some value  "; "x:1"])) ∅
  = parse_section_loop 2 (open (text_of_lines ["x:1"]))
      (<["# a key " := trim " some value"]> ∅).
Proof.
  apply (key_value_line_stored 2 _ _ "  # a key : some value  " "# a key "
           " some value").
  - reflexivity.
  - reflexivity.
  - reflexivity.
  - reflexivity.
  - vm_compute. discriminate.
Defined.

(** X2: The only lines a section body passes over are those that start with [#]
    (after trimming) and hold no colon. *)
Theorem comment_line_skipped
    (fuel : nat) (src src1 : istream) (raw : string) (section : YSOSection.t) :
  getline src = (src1, Some raw) →
  (is_key_value_line (trim raw) = false
   ↔ at_index (trim raw) 0 = "#"%char ∧ find_char (trim raw) ":" 0 = npos)
  ∧ (at_index (trim raw) 0 = "#"%char → find_char (trim raw) ":" 0 = npos →
     parse_section_loop (S fuel) src section = parse_section_loop fuel src1 section).
Proof.
  intros G.
  assert (is_key_value_line (trim raw) = false
          ↔ at_index (trim raw) 0 = "#"%char ∧ find_char (trim raw) ":" 0 = npos) as Hiff.
  { rewrite is_key_value_line_eq, orb_false_iff, !negb_false_iff.
    by rewrite Ascii.eqb_eq, Z.eqb_eq. }
  split; [done|]. intros Hc Hn. simpl. rewrite G.
  by rewrite (proj2 Hiff).
Qed.

Lemma comment_line_skipped_witness :
  (is_key_value_line (trim "# comment") = false
   ↔ at_index (trim "# comment") 0 = "#"%char
     ∧ find_char (trim "# comment") ":" 0 = npos)
  ∧ (at_index (trim "# comment") 0 = "#"%char →
     find_char (trim "# comment") ":" 0 = npos →
     parse_section_loop 3 (open (text_of_lines ["# comment"; "x:1"])) {[ "k" := "v" ]}
     = parse_section_loop 2 (open (text_of_lines ["x:1"])) {[ "k" := "v" ]}).
Proof.
  apply (comment_line_skipped 2 (open (text_of_lines ["# comment"; "x:1"]))
           (open (text_of_lines ["x:1"])) "# comment" {[ "k" := "v" ]}).
  reflexivity.
Defined.

(** ** The lines of [to_string]'s loop, read by [parse_section] *)

Section SectionRoundTrip.

Lemma to_string_over_from acc entries :
  fold_left (λ s kv, s +:+ (kv.1 +:+ ":" +:+ kv.2 +:+ String newline EmptyString))
            entries acc
  = acc +:+ YSOSection.to_string_over entries.
Proof.
  unfold YSOSection.to_string_over. revert acc.
  induction entries as [|e es IH]; intros acc; simpl.
  - by rewrite app_nil_r.
  - rewrite (IH (acc +:+ _)), (IH (EmptyString +:+ _)), app_nil_l.
    by rewrite app_assoc.
Qed.

Lemma to_string_over_cons e es tail :
  YSOSection.to_string_over (e :: es) +:+ tail
  = entry_line e +:+ String newline (YSOSection.to_string_over es +:+ tail).
Proof.
  unfold YSOSection.to_string_over at 1. simpl.
  rewrite to_string_over_from, app_nil_l. unfold entry_line.
  by rewrite !app_assoc.
Qed.

Lemma store_entries_list_to_map entries :
  store_entries entries ∅ = list_to_map (reverse entries).
Proof.
  unfold store_entries, reverse. rewrite <- rev_alt, <- fold_left_rev_right.
  reflexivity.
Qed.

(** Storing the entries of a map in any order of enumeration rebuilds it. *)
Lemma store_entries_map (m : YSOSection.t) entries :
  entries ≡ₚ map_to_list m → store_entries entries ∅ = m.
Proof.
  intros Hp. rewrite store_entries_list_to_map.
  rewrite <- (list_to_map_to_list m). apply list_to_map_proper.
  - rewrite reverse_Permutation, Hp. apply NoDup_fst_map_to_list.
  - by rewrite reverse_Permutation.
Qed.

(** The loop of [parse_section] reads the lines the loop of [to_string]
    builds for
    plain entries and stores each entry. *)
Lemma parse_section_loop_entries entries : ∀ fuel tail section,
  Forall plain_entry entries →
  (length entries ≤ fuel)%nat →
  parse_section_loop fuel (open (YSOSection.to_string_over entries +:+ tail)) section
  = parse_section_loop (fuel - length entries) (open tail)
      (store_entries entries section).
Proof.
  induction entries as [|[k v] es IH]; intros fuel tail section Hall Hf.
  - simpl. rewrite app_nil_l. f_equal. lia.
  - apply Forall_cons in Hall as [(Hnk & Hck & Hnv & Hm & Htv & Htl & Hsz) Hall].
    simpl in Hnk, Hck, Hnv, Hm, Htv. simpl in Hf.
    destruct fuel as [|fuel]; [lia|].
    rewrite to_string_over_cons.
    assert (has_char newline (entry_line (k, v)) = false) as Hnl.
    { unfold entry_line. simpl. rewrite !has_char_app, Hnk, Hnv. reflexivity. }
    rewrite (key_value_line_step fuel _ (open (YSOSection.to_string_over es +:+ tail))
               (entry_line (k, v)) k v).
    + rewrite IH by (done || lia). simpl. unfold YSOSection.assign.
      by rewrite (trim_of_trimmed v).
    + by apply getline_terminated.
    + by apply trim_of_trimmed.
    + done.
    + done.
    + by rewrite trim_of_trimmed.
Qed.

End SectionRoundTrip.

(** X3: A section whose entries are plain reads back as it was written: for
    every order in which [to_string] may enumerate the entries, the text it
    builds is parsed by [parse_section] into the same section, and the
    stream is left exhausted. *)
Theorem section_round_trip (m : YSOSection.t) (entries : list (string * string)) :
  entries ≡ₚ map_to_list m →
  Forall plain_entry entries →
  let text := YSOSection.to_string_over entries in
  parse_section (fuel_for (open text)) (open text) = Some (Ok (exhausted, m)).
Proof.
  intros Hp Hall text. apply (parse_section_any_fuel (S (length entries))).
  unfold parse_section, text.
  rewrite <- (app_nil_r (YSOSection.to_string_over entries)).
  rewrite parse_section_loop_entries by (done || lia).
  replace (S (length entries) - length entries)%nat with 1%nat by lia.
  by rewrite (store_entries_map m).
Qed.

Local Ltac solve_trimmed :=
  right; split; eexists _, _; split; reflexivity.

Local Ltac solve_plain_entry :=
  unfold plain_entry; simpl fst; simpl snd;
  repeat split;
  first [ reflexivity | by left | solve_trimmed | (vm_compute; discriminate) ].

Local Ltac solve_plain_entries :=
  match goal with
  | |- Forall plain_entry ?l =>
      let l' := eval vm_compute in l in
      change (Forall plain_entry l');
      repeat (constructor; [solve_plain_entry|]); constructor
  end.

Lemma section_round_trip_witness :
  let m : YSOSection.t := {[ "name" := "demo"; "mode" := "fast" ]} in
  let text := YSOSection.to_string_over [("name", "demo"); ("mode", "fast")] in
  parse_section (fuel_for (open text)) (open text) = Some (Ok (exhausted, m)).
Proof.
  apply (section_round_trip {[ "name" := "demo"; "mode" := "fast" ]}
           [("name", "demo"); ("mode", "fast")]).
  - vm_compute. first [ reflexivity | apply perm_swap ].
  - constructor; [solve_plain_entry|]. constructor; [solve_plain_entry|]. constructor.
Defined.

(** ** Multi-line values *)

Section Multiline.

Lemma text_of_lines_app ls ls' tail :
  text_of_lines (ls ++ ls') +:+ tail
  = text_of_lines ls +:+ (text_of_lines ls' +:+ tail).
Proof.
  induction ls as [|l ls IH]; [done|].
  change ((l :: ls) ++ ls') with (l :: (ls ++ ls')).
  by rewrite !text_of_lines_cons, IH.
Qed.

(** The inner loop appends the lines that do not hold the marker. *)
Lemma collect_multiline_content content : ∀ fuel tail value,
  Forall content_line content →
  (length content ≤ fuel)%nat →
  collect_multiline fuel (open (text_of_lines content +:+ tail)) value false
  = collect_multiline (fuel - length content) (open tail)
      (value +:+ appended content) false.
Proof.
  induction content as [|l ls IH]; intros fuel tail value Hall Hf.
  - simpl. rewrite app_nil_l, app_nil_r. f_equal. lia.
  - apply Forall_cons in Hall as [[Hnl Hm] Hall]. simpl in Hf.
    destruct fuel as [|fuel]; [lia|].
    rewrite text_of_lines_cons. cbn [collect_multiline].
    rewrite getline_terminated by done. simpl. rewrite Hm. simpl.
    rewrite IH by (done || lia). by rewrite app_assoc.
Qed.

(** The line that holds the marker ends the value, and the loop takes one
    more line before it stops. *)
Lemma collect_multiline_end fuel term head tl next rest value :
  has_char newline term = false →
  term = head +:+ tl →
  find_str term YSO_MULLN_STR = size head →
  size head ≠ npos →
  has_char newline next = false →
  collect_multiline (S (S fuel))
    (open (text_of_lines [term; next] +:+ rest)) value false
  = Some (Ok (open rest, value +:+ head)).
Proof.
  intros Hnt Hterm Hfind Hne Hnn.
  rewrite text_of_lines_cons. cbn [collect_multiline].
  rewrite getline_terminated by done. simpl. rewrite Hfind.
  assert ((size head =? npos) = false) as -> by (by apply Z.eqb_neq).
  simpl. rewrite Hterm at 1. rewrite substr_prefix.
  rewrite app_assoc, app_cons, app_nil_l, getline_terminated by done.
  reflexivity.
Qed.

Lemma collect_multiline_block fuel content term head tl next rest value :
  Forall content_line content →
  has_char newline term = false →
  term = head +:+ tl →
  find_str term YSO_MULLN_STR = size head →
  size head ≠ npos →
  has_char newline next = false →
  (length content + 2 ≤ fuel)%nat →
  collect_multiline fuel
    (open (text_of_lines (content ++ [term; next]) +:+ rest)) value false
  = Some (Ok (open rest, value +:+ appended content +:+ head)).
Proof.
  intros Hall Hnt Hterm Hfind Hne Hnn Hf.
  rewrite text_of_lines_app.
  rewrite collect_multiline_content by (done || lia).
  destruct (fuel - length content)%nat as [|[|f]] eqn:E; [lia|lia|].
  rewrite (collect_multiline_end f term head tl) by done.
  by rewrite app_assoc.
Qed.

(** The line that opens a multi-line value hands the stream to the inner
    loop; what the inner loop collects is not stored. *)
Lemma multiline_open_step
    (fuel : nat) (src src1 : istream) (raw k v : string) (section : YSOSection.t) :
  getline src = (src1, Some raw) →
  trim raw = k +:+ ":" +:+ v →
  has_char ":" k = false →
  find_str v YSO_MULLN_STR ≠ npos →
  size (trim raw) ≤ npos →
  parse_section_loop (S fuel) src section
  = match collect_multiline fuel src1 v false with
    | None => None
    | Some (Throw e) => Some (Throw e)
    | Some (Ok (src2, _)) => parse_section_loop fuel src2 section
    end.
Proof.
  intros G Hline Hk Hmarker Hsize.
  change (k +:+ ":" +:+ v) with (k +:+ String ":" v) in Hline.
  rewrite Hline in Hsize.
  destruct (entry_line_is_key_value k v Hk Hsize) as (Hkv & Hfind & Hwrap).
  simpl. rewrite G, Hline, Hkv, Hfind, Hwrap, substr_prefix.
  rewrite substr_value by done.
  assert ((find_str v YSO_MULLN_STR =? npos) = false) as ->
    by (by apply Z.eqb_neq).
  reflexivity.
Qed.

End Multiline.

(** X4: What the inner loop of [parse_section] computes for a value that is
    terminated and followed by another line: the lines before the marker
    line are appended to the value one after the other with nothing between
    them, then what comes before the marker on the marker line; and the
    line after the marker line is taken off the stream as well. *)
Theorem multiline_value_collected
    (fuel : nat) (content : list string) (term head tl next rest value : string) :
  Forall content_line content →
  has_char newline term = false →
  term = head +:+ tl →
  find_str term YSO_MULLN_STR = size head →
  size head ≠ npos →
  has_char newline next = false →
  (length content + 2 ≤ fuel)%nat →
  collect_multiline fuel
    (open (text_of_lines (content ++ [term; next]) +:+ rest)) value false
  = Some (Ok (open rest, value +:+ appended content +:+ head)).
Proof. apply collect_multiline_block. Qed.

Lemma multiline_value_collected_witness :
  collect_multiline 4
    (open (text_of_lines (["hello"; "world"] ++ ["end" +:+ YSO_MULLN_STR; "name:demo"])
           +:+ "mode:fast"))
    YSO_MULLN_STR false
  = Some (Ok (open "mode:fast",
              YSO_MULLN_STR +:+ appended ["hello"; "world"] +:+ "end")).
Proof.
  apply (multiline_value_collected 4 ["hello"; "world"] ("end" +:+ YSO_MULLN_STR)
           "end" YSO_MULLN_STR "name:demo" "mode:fast" YSO_MULLN_STR).
  - repeat constructor.
  - reflexivity.
  - reflexivity.
  - reflexivity.
  - vm_compute. discriminate.
  - reflexivity.
  - simpl. lia.
Defined.

(** X5: A multi-line value stores nothing, and the line that follows its marker
    line is lost: the section body goes on after that line with the section
    unchanged. *)
Theorem multiline_block_stores_nothing
    (fuel : nat) (raw k v : string) (content : list string)
    (term head tl next rest : string) (section : YSOSection.t) :
  has_char newline raw = false →
  trim raw = k +:+ ":" +:+ v →
  has_char ":" k = false →
  find_str v YSO_MULLN_STR ≠ npos →
  size (trim raw) ≤ npos →
  Forall content_line content →
  has_char newline term = false →
  term = head +:+ tl →
  find_str term YSO_MULLN_STR = size head →
  size head ≠ npos →
  has_char newline next = false →
  (length content + 2 ≤ fuel)%nat →
  parse_section_loop (S fuel)
    (open (text_of_lines (raw :: content ++ [term; next]) +:+ rest)) section
  = parse_section_loop fuel (open rest) section.
Proof.
  intros Hnr Hline Hk Hv Hsize Hall Hnt Hterm Hfind Hne Hnn Hf.
  rewrite text_of_lines_cons.
  rewrite (multiline_open_step fuel _ _ raw k v section
             (getline_terminated raw _ Hnr) Hline Hk Hv Hsize).
  by rewrite (collect_multiline_block fuel content term head tl next rest v).
Qed.

Lemma multiline_block_stores_nothing_witness :
  parse_section_loop 5
    (open (text_of_lines (multiline_open "desc" :: ["hello"; "world"]
                            ++ [YSO_MULLN_STR; "name:demo"])
           +:+ text_of_lines ["mode:fast"]))
    ∅
  = parse_section_loop 4 (open (text_of_lines ["mode:fast"])) ∅.
Proof.
  apply (multiline_block_stores_nothing 4 (multiline_open "desc") "desc" YSO_MULLN_STR
           ["hello"; "world"] YSO_MULLN_STR EmptyString YSO_MULLN_STR "name:demo").
  - reflexivity.
  - reflexivity.
  - reflexivity.
  - vm_compute. discriminate.
  - vm_compute. discriminate.
  - repeat constructor.
  - reflexivity.
  - reflexivity.
  - reflexivity.
  - vm_compute. discriminate.
  - reflexivity.
  - simpl. lia.
Defined.

(** X6: A multi-line value that nothing terminates is accepted when the stream
    ends with a newline: the section body returns without an exception, the
    section is as it was before the value, and the stream is exhausted. *)
Theorem unterminated_value_accepted
    (fuel : nat) (raw k v : string) (content : list string) (section : YSOSection.t) :
  has_char newline raw = false →
  trim raw = k +:+ ":" +:+ v →
  has_char ":" k = false →
  find_str v YSO_MULLN_STR ≠ npos →
  size (trim raw) ≤ npos →
  Forall content_line content →
  (length content + 1 ≤ fuel)%nat →
  parse_section_loop (S fuel) (open (text_of_lines (raw :: content))) section
  = Some (Ok (exhausted, section)).
Proof.
  intros Hnr Hline Hk Hv Hsize Hall Hf.
  rewrite <- (app_nil_r (text_of_lines (raw :: content))), text_of_lines_cons.
  rewrite (multiline_open_step fuel _ _ raw k v section
             (getline_terminated raw _ Hnr) Hline Hk Hv Hsize).
  rewrite collect_multiline_content by (done || lia).
  destruct (fuel - length content)%nat as [|f] eqn:E; [lia|].
  destruct fuel as [|fuel]; [lia|]. reflexivity.
Qed.

Lemma unterminated_value_accepted_witness :
  parse_section_loop 4 (open (text_of_lines [multiline_open "k"; "abc"; "def"]))
    {[ "x" := "1" ]}
  = Some (Ok (exhausted, {[ "x" := "1" ]})).
Proof.
  apply (unterminated_value_accepted 3 (multiline_open "k") "k" YSO_MULLN_STR
           ["abc"; "def"]).
  - reflexivity.
  - reflexivity.
  - reflexivity.
  - vm_compute. discriminate.
  - vm_compute. discriminate.
  - repeat constructor.
  - simpl. lia.
Defined.

(** X7: While a multi-line value is collected, a last line of the stream that no
    newline terminates makes the section body throw, whatever that line
    holds: also when it holds the marker that ends the value. *)
Theorem multiline_last_line_throws
    (fuel : nat) (raw k v last : string) (content : list string)
    (section : YSOSection.t) :
  has_char newline raw = false →
  trim raw = k +:+ ":" +:+ v →
  has_char ":" k = false →
  find_str v YSO_MULLN_STR ≠ npos →
  size (trim raw) ≤ npos →
  Forall content_line content →
  has_char newline last = false →
  last ≠ EmptyString →
  (length content + 1 ≤ fuel)%nat →
  parse_section_loop (S fuel)
    (open (text_of_lines (raw :: content) +:+ last)) section
  = Some (Throw expected_marker).
Proof.
  intros Hnr Hline Hk Hv Hsize Hall Hnl Hlast Hf.
  rewrite text_of_lines_cons.
  rewrite (multiline_open_step fuel _ _ raw k v section
             (getline_terminated raw _ Hnr) Hline Hk Hv Hsize).
  rewrite collect_multiline_content by (done || lia).
  destruct (fuel - length content)%nat as [|f] eqn:E; [lia|].
  cbn [collect_multiline]. rewrite getline_last by done. reflexivity.
Qed.

Lemma multiline_last_line_throws_witness :
  parse_section_loop 3
    (open (text_of_lines [multiline_open "k"; "abc"] +:+ ("end" +:+ YSO_MULLN_STR)))
    ∅
  = Some (Throw expected_marker).
Proof.
  apply (multiline_last_line_throws 2 (multiline_open "k") "k" YSO_MULLN_STR
           ("end" +:+ YSO_MULLN_STR) ["abc"]).
  - reflexivity.
  - reflexivity.
  - reflexivity.
  - vm_compute. discriminate.
  - vm_compute. discriminate.
  - repeat constructor.
  - reflexivity.
  - discriminate.
  - simpl. lia.
Defined.

(** ** Section headers *)

Section Headers.

Lemma header_positions p name post :
  has_char "[" p = false → has_char "]" name = false →
  size (p +:+ String "[" (name +:+ String "]" post)) ≤ npos →
  let line := p +:+ String "[" (name +:+ String "]" post) in
  find_char line "[" 0 = size p
  ∧ find_char line "]" (size p) = size p + 1 + size name
  ∧ substr line (size p + 1) (size name) = Ok name.
Proof.
  intros Hp Hname Hsize line. unfold line.
  split; [by apply find_char_found|]. split.
  - rewrite find_char_after. simpl.
    rewrite index_of_char_found by done. lia.
  - replace (p +:+ String "[" (name +:+ String "]" post))
      with ((p +:+ "[") +:+ name +:+ String "]" post) by (by rewrite app_assoc).
    replace (size p + 1) with (size (p +:+ "["))
      by (rewrite size_app; reflexivity).
    apply substr_middle.
Qed.

(** The loop of [parse] on a header line: the name is what stands between
    the first [[] and the first []] after it, trimmed; the section is what
    [parse_section] makes of the rest of the stream. *)
Lemma header_line_step
    (fuel : nat) (src src1 : istream) (raw p name post : string)
    (object : YumStudioObject.t) :
  getline src = (src1, Some raw) →
  trim raw = p +:+ "[" +:+ name +:+ "]" +:+ post →
  has_char "[" p = false →
  has_char "]" name = false →
  is_header_line (trim raw) = true →
  size (trim raw) ≤ npos →
  parse_loop (S fuel) src object
  = match parse_section fuel src1 with
    | None => None
    | Some (Throw e) => Some (Throw e)
    | Some (Ok (src2, section)) =>
        parse_loop fuel src2 (<[trim name := section]> object)
    end.
Proof.
  intros G Hline Hp Hname Hh Hsize.
  change (p +:+ "[" +:+ name +:+ "]" +:+ post)
    with (p +:+ String "[" (name +:+ String "]" post)) in Hline.
  simpl. rewrite G, Hh. rewrite Hline in *.
  destruct (header_positions p name post Hp Hname Hsize) as (Hbeg & Hend & Hsub).
  rewrite Hbeg, Hend.
  rewrite !size_app, !size_cons, size_app, size_cons in Hsize.
  pose proof (size_nonneg p). pose proof (size_nonneg name).
  pose proof (size_nonneg post).
  assert ((size p + 1 + size name =? npos) = false) as ->
    by (apply Z.eqb_neq; lia).
  rewrite (wrap_small (size p + 1)) by lia.
  replace (size p + 1 + size name - (size p + 1)) with (size name) by lia.
  rewrite (wrap_small (size name)) by lia.
  by rewrite Hsub.
Qed.

Lemma trimmed_header_line name : trimmed (header_line name).
Proof.
  right. split.
  - by exists "["%char, (name +:+ "]").
  - exists "]"%char, (String.rev name +:+ "[").
    split; [|done]. unfold header_line.
    change ("[" +:+ name +:+ "]") with (String "[" (name +:+ "]")).
    by rewrite rev_cons, rev_app_distr.
Qed.

(** Lines that are no headers, then the end of the stream: an empty
    object. *)
Lemma parse_loop_no_header fuel pre last object :
  Forall ignored_line pre →
  has_char newline last = false →
  is_header_line (trim last) = false →
  (length pre + 2 ≤ fuel)%nat →
  parse_loop fuel (open (text_of_lines pre +:+ last)) object = Some (Ok object).
Proof.
  intros Hpre Hnl Hh Hf.
  rewrite parse_loop_skip_lines by (done || lia).
  destruct (fuel - length pre)%nat as [|[|f]] eqn:E; [lia|lia|].
  destruct last as [|c last]; [reflexivity|].
  cbn [parse_loop]. rewrite getline_last by done. by rewrite Hh.
Qed.

(** After lines that are no headers, a header line followed by a body. *)
Lemma parse_loop_first_header fuel pre raw p name post body :
  Forall ignored_line pre →
  has_char newline raw = false →
  trim raw = p +:+ "[" +:+ name +:+ "]" +:+ post →
  has_char "[" p = false →
  has_char "]" name = false →
  is_header_line (trim raw) = true →
  size (trim raw) ≤ npos →
  (pending (open body) < fuel)%nat →
  parse_loop (length pre + S fuel)
    (open (text_of_lines pre +:+ raw +:+ String newline body)) ∅
  = section_named (trim name) <$> parse_section fuel (open body).
Proof.
  intros Hpre Hnr Hline Hp Hname Hh Hsize Hf.
  rewrite parse_loop_skip_lines by (done || lia).
  replace (length pre + S fuel - length pre)%nat with (S fuel) by lia.
  rewrite (header_line_step fuel _ _ raw p name post ∅
             (getline_terminated raw body Hnr) Hline Hp Hname Hh Hsize).
  unfold parse_section.
  destruct (parse_section_loop_total fuel (open body) ∅ Hf) as (r & -> & Hr).
  destruct r as [[src2 section]|e]; [|done]. simpl.
  destruct fuel as [|fuel]; [lia|].
  rewrite parse_loop_failed by done. by rewrite insert_empty.
Qed.

End Headers.

(** X8: A stream in which no line is taken for a section header parses to the
    empty object: lines outside a section, key/value lines among them, are
    dropped without an error.  The last line may lack its newline. *)
Theorem parse_without_header (pre : list string) (last : string) :
  Forall ignored_line pre →
  has_char newline last = false →
  is_header_line (trim last) = false →
  parse (open (text_of_lines pre +:+ last)) = Some (Ok ∅).
Proof.
  intros Hpre Hnl Hh.
  apply (parse_loop_parse (length pre + 2)).
  by apply parse_loop_no_header.
Qed.

Lemma parse_without_header_witness :
  parse (open (text_of_lines ["# settings"; "name:demo"; ""] +:+ "mode : fast"))
  = Some (Ok ∅).
Proof.
  apply (parse_without_header ["# settings"; "name:demo"; ""] "mode : fast").
  - repeat constructor.
  - reflexivity.
  - reflexivity.
Defined.

(** X9: The first header line of a stream decides the whole result: the object
    has one section, named by the trimmed text between the first [[] of the
    line and the first []] after it, and holding whatever [parse_section]
    makes of the rest of the stream; an exception of [parse_section] is the
    exception of [parse].  Text before the [[] and after the []] is not
    looked at. *)
Theorem parse_first_header
    (pre : list string) (raw p name post body : string) :
  Forall ignored_line pre →
  has_char newline raw = false →
  trim raw = p +:+ "[" +:+ name +:+ "]" +:+ post →
  has_char "[" p = false →
  has_char "]" name = false →
  is_header_line (trim raw) = true →
  size (trim raw) ≤ npos →
  parse (open (text_of_lines pre +:+ raw +:+ String newline body))
  = section_named (trim name)
      <$> parse_section (fuel_for (open body)) (open body).
Proof.
  intros Hpre Hnr Hline Hp Hname Hh Hsize.
  pose proof (parse_loop_first_header (fuel_for (open body)) pre raw p name post body
                Hpre Hnr Hline Hp Hname Hh Hsize (fuel_for_enough _)) as H.
  destruct (parse_section_loop_total (fuel_for (open body)) (open body) ∅
              (fuel_for_enough _)) as (r & Hr & _).
  unfold parse_section in *. rewrite Hr in *. simpl in *.
  by apply parse_loop_parse in H.
Qed.

Lemma parse_first_header_witness :
  parse (open (text_of_lines ["# settings"] +:+ "  key [ general ] rest  "
               +:+ String newline (text_of_lines ["name:demo"; "[other]"])))
  = section_named (trim " general ")
      <$> parse_section (fuel_for (open (text_of_lines ["name:demo"; "[other]"])))
            (open (text_of_lines ["name:demo"; "[other]"])).
Proof.
  apply (parse_first_header ["# settings"] "  key [ general ] rest  "
           "key " " general " " rest").
  - repeat constructor.
  - reflexivity.
  - reflexivity.
  - reflexivity.
  - reflexivity.
  - reflexivity.
  - vm_compute. discriminate.
Defined.

(** ** Saving and parsing again *)

Section SaveParse.

Lemma length_to_string_over entries tail :
  (length entries ≤ String.length (YSOSection.to_string_over entries +:+ tail))%nat.
Proof.
  induction entries as [|e es IH]; [simpl; lia|].
  rewrite to_string_over_cons, length_app. simpl. lia.
Qed.

(** The entry lines of a section followed by a blank line: the entries
    are read back, and the blank line is stored as an entry with the empty
    key and the empty value. *)
Lemma parse_section_entries_blank (m : YSOSection.t) entries fuel :
  entries ≡ₚ map_to_list m →
  Forall plain_entry entries →
  (length entries + 2 ≤ fuel)%nat →
  parse_section fuel
    (open (YSOSection.to_string_over entries +:+ String newline EmptyString))
  = Some (Ok (exhausted, <[EmptyString := EmptyString]> m)).
Proof.
  intros Hp Hall Hf. unfold parse_section.
  rewrite parse_section_loop_entries by (done || lia).
  rewrite (store_entries_map m) by done.
  destruct (fuel - length entries)%nat as [|[|f]] eqn:E; [lia|lia|].
  reflexivity.
Qed.

End SaveParse.

Lemma parse_section_text
    (name header : string) (m : YSOSection.t) (entries : list (string * string)) :
  entries ≡ₚ map_to_list m →
  Forall plain_entry entries →
  ignored_line header →
  has_char newline name = false →
  has_char "]" name = false →
  trimmed name →
  size (header_line name) ≤ npos →
  parse (open (text_of_lines [header; header_line name]
               +:+ YSOSection.to_string_over entries +:+ String newline EmptyString))
  = Some (Ok {[ name := <[EmptyString := EmptyString]> m ]}).
Proof.
  intros Hp Hall Hheader Hnl Hname Htrim Hsize.
  assert (trim (header_line name) = header_line name) as Hth
    by apply trim_of_trimmed, trimmed_header_line.
  set (body := YSOSection.to_string_over entries +:+ String newline EmptyString).
  assert (text_of_lines [header; header_line name] +:+ body
          = text_of_lines [header] +:+ header_line name +:+ String newline body) as ->.
  { by rewrite !text_of_lines_cons, !app_nil_l. }
  apply (parse_loop_parse (length [header] + S (fuel_for (open body)))).
  rewrite (parse_loop_first_header _ [header] (header_line name)
             EmptyString name EmptyString).
  - unfold body. rewrite (parse_section_entries_blank m); [|done|done|].
    + simpl. by rewrite (trim_of_trimmed name).
    + pose proof (length_to_string_over entries (String newline EmptyString)).
      unfold fuel_for, pending. simpl. lia.
  - by constructor.
  - unfold header_line. by rewrite !has_char_app, Hnl.
  - by rewrite Hth.
  - done.
  - done.
  - by rewrite Hth.
  - by rewrite Hth.
  - apply fuel_for_enough.
Qed.

(** X10: the text of a one-section object in the layout [save] streams (a
    header line that is not taken for a section header, the line [[name]],
    the lines the loop of [to_string] builds for the entries in any order
    of enumeration, a blank line) parses, for plain entries and a trimmed
    name without []], to the section with one entry more: the empty key
    with the empty value, made from the blank line. *)
Theorem section_text_parses_with_empty_entry
    (name header : string) (m : YSOSection.t) (entries : list (string * string)) :
  entries ≡ₚ map_to_list m →
  Forall plain_entry entries →
  ignored_line header →
  has_char newline name = false →
  has_char "]" name = false →
  trimmed name →
  size (header_line name) ≤ npos →
  parse (open (text_of_lines [header; header_line name]
               +:+ YSOSection.to_string_over entries +:+ String newline EmptyString))
  = Some (Ok {[ name := <[EmptyString := EmptyString]> m ]}).
Proof. apply parse_section_text. Qed.

Lemma section_text_parses_with_empty_entry_witness :
  parse (open (text_of_lines ["# written by save"; header_line "general"]
               +:+ YSOSection.to_string_over [("name", "demo"); ("mode", "fast")]
               +:+ String newline EmptyString))
  = Some (Ok {[ "general" := <[EmptyString := EmptyString]>
                               {[ "name" := "demo"; "mode" := "fast" ]} ]}).
Proof.
  apply (section_text_parses_with_empty_entry "general" "# written by save"
           {[ "name" := "demo"; "mode" := "fast" ]}
           [("name", "demo"); ("mode", "fast")]).
  - vm_compute. first [ reflexivity | apply perm_swap ].
  - solve_plain_entries.
  - split; reflexivity.
  - reflexivity.
  - reflexivity.
  - solve_trimmed.
  - vm_compute. discriminate.
Defined.

(** X11: The empty object, saved under a header line that is not taken for a
    section header, parses to the empty object again; and [save] writes
    nothing but throws when the file cannot be opened. *)
Theorem save_parse_empty_object (header path : string) :
  ignored_line header →
  save true ∅ path header = Some (Ok (text_of_lines [header]))
  ∧ parse (open (text_of_lines [header])) = Some (Ok ∅)
  ∧ ∀ object, save false object path header
              = Some (Throw (runtime_error ("File not found: " +:+ path))).
Proof.
  intros Hheader. split; [|split; [|done]].
  - unfold save, save_sections. rewrite map_to_list_empty. simpl.
    by rewrite app_nil_r.
  - rewrite <- (app_nil_r (text_of_lines [header])).
    apply (parse_loop_parse (length [header] + 2)).
    apply parse_loop_no_header; [by constructor|done|done|lia].
Qed.

Lemma save_parse_empty_object_witness :
  save true ∅ "object.yso" "# nothing yet"
  = Some (Ok (text_of_lines ["# nothing yet"]))
  ∧ parse (open (text_of_lines ["# nothing yet"])) = Some (Ok ∅)
  ∧ ∀ object, save false object "object.yso" "# nothing yet"
              = Some (Throw (runtime_error ("File not found: " +:+ "object.yso"))).
Proof.
  apply (save_parse_empty_object "# nothing yet" "object.yso").
  split; reflexivity.
Defined.


(** ** What a parsed object looks like *)

Section Shape.

Lemma index_of_char_cases c s i :
  (has_char c s = false ∧ index_of_char c s i = npos)
  ∨ (∃ p q, s = p +:+ String c q ∧ has_char c p = false
            ∧ index_of_char c s i = i + size p).
Proof.
  revert i. induction s as [|a s IH]; intros i; [by left|].
  simpl. destruct (Ascii.eqb a c) eqn:E.
  - right. apply Ascii.eqb_eq in E as ->.
    exists EmptyString, s. repeat split. unfold size. simpl. lia.
  - destruct (IH (i + 1)) as [[Hs Hi]|(p & q & -> & Hp & Hi)].
    + left. by rewrite Hs, Hi.
    + right. exists (String a p), q. rewrite app_cons. simpl.
      rewrite E, Hp, Hi, size_cons. repeat split. lia.
Qed.

Lemma has_char_keep c n s :
  has_char c s = false → has_char c (keep n s) = false.
Proof.
  revert n. induction s as [|a s IH]; intros [|n] H; try done.
  simpl in *. apply orb_false_iff in H as [Ha Hs]. by rewrite Ha, IH.
Qed.

(** What stands before the first colon holds no colon. *)
Lemma key_has_no_colon line name :
  substr line 0 (find_char line ":" 0) = Ok name → has_char ":" name = false.
Proof.
  unfold substr, find_char. pose proof (size_nonneg line).
  destruct (size line <? 0) eqn:E; [lia|]. simpl. intros [= <-].
  destruct (index_of_char_cases ":" line 0) as [[Hs _]|(p & q & -> & Hp & ->)].
  - by apply has_char_keep.
  - rewrite size_app, size_cons. pose proof (size_nonneg p). pose proof (size_nonneg q).
    rewrite Z.sub_0_r, Z.min_l, Z.add_0_l by lia.
    unfold size. by rewrite Nat2Z.id, keep_app.
Qed.

Lemma no_leading_space_trimmed s : trimmed s → no_leading_space s.
Proof. by intros [->|[(c & s' & -> & Hc) _]]. Qed.

Lemma no_leading_space_keep n s :
  no_leading_space s → no_leading_space (keep n s).
Proof. by destruct s, n. Qed.

Lemma key_no_leading_space line len name :
  substr (trim line) 0 len = Ok name → no_leading_space name.
Proof.
  unfold substr. destruct (_ <? 0); [done|]. intros [= <-]. simpl.
  apply no_leading_space_keep, no_leading_space_trimmed, trim_trimmed.
Qed.

Lemma parse_section_loop_shape fuel : ∀ src section src' section',
  parse_section_loop fuel src section = Some (Ok (src', section')) →
  parsed_section section → parsed_section section'.
Proof.
  induction fuel as [|fuel IH]; intros src section src' section'; [done|].
  simpl. destruct (getline src) as [src1 [line|]].
  - destruct (is_key_value_line (trim line)); [|apply IH].
    destruct (substr _ 0 _) as [name|] eqn:Hname; [|done].
    destruct (substr _ (wrap _) _) as [value|]; [|done].
    destruct (negb _).
    + destruct (collect_multiline fuel src1 value false) as [[[src2 v]|]|];
        [apply IH|done|done].
    + intros H Hsec. apply (IH _ _ _ _ H). unfold YSOSection.assign.
      apply map_Forall_insert_2; [|done].
      split; [by apply (key_has_no_colon (trim line))|].
      split; [by apply (key_no_leading_space line _ _ Hname)|].
      apply trim_trimmed.
  - by intros [= <- <-].
Qed.

Lemma parse_loop_shape fuel : ∀ src object object',
  parse_loop fuel src object = Some (Ok object') →
  parsed_object object → parsed_object object'.
Proof.
  induction fuel as [|fuel IH]; intros src object object'; [done|].
  simpl. destruct (getline src) as [src1 [line|]].
  - destruct (is_header_line (trim line)); [|apply IH].
    destruct (_ =? npos); [done|].
    destruct (substr _ _ _) as [name|]; [|done].
    unfold parse_section.
    destruct (parse_section_loop fuel src1 ∅) as [[[src2 section]|]|] eqn:Hs;
      [|done|done].
    intros H Hobj. apply (IH _ _ _ H).
    apply map_Forall_insert_2; [|done].
    split; [apply trim_trimmed|].
    apply (parse_section_loop_shape _ _ _ _ _ Hs), map_Forall_empty.
  - by intros [= <-].
Qed.

End Shape.

(** X13: Whatever the stream holds, an object that [parse] returns is tidy: every
    section name is trimmed, no key contains a colon or starts with white
    space, and every value is trimmed. *)
Theorem parse_result_shape (src : istream) (object : YumStudioObject.t) :
  parse src = Some (Ok object) → parsed_object object.
Proof.
  intros H. apply (parse_loop_shape _ _ _ _ H), map_Forall_empty.
Qed.

Lemma parse_result_shape_witness :
  parsed_object {[ "general" := <["name " := "demo"]> {[ "x y" := "1  2" ]} ]}.
Proof.
  apply (parse_result_shape
           (open (text_of_lines [" [ general ] "; "  name : demo  "; " x y:  1  2 "]))).
  vm_compute. reflexivity.
Defined.

(** ** trim *)

(** X14: [trim] takes white space off both ends and nothing else: every string is
    white space, then its trimmed form, then white space; the trimmed form
    neither starts nor ends with white space; and trimming twice is
    trimming once. *)
Theorem trim_strips_white_space (s : string) :
  (∃ a b, s = a +:+ trim s +:+ b ∧ all_space a ∧ all_space b)
  ∧ trimmed (trim s)
  ∧ trim (trim s) = trim s.
Proof.
  split; [|split; [apply trim_trimmed | apply trim_idemp]].
  destruct (trim_decompose s) as (a & core & b & Hs & Ha & Hb & Hcore).
  exists a, b. rewrite Hs at 2. by rewrite trim_frame.
Qed.

(** X15: White space around a string that neither starts nor ends with white
    space is all that [trim] removes; in particular a string of white space
    trims to the empty string and a trimmed string to itself. *)
Theorem trim_removes_frame (a core b : string) :
  all_space a → all_space b → trimmed core →
  trim (a +:+ core +:+ b) = core.
Proof. apply trim_frame. Qed.

Lemma trim_removes_frame_witness :
  trim (" " +:+ "a  b" +:+ String newline " ") = "a  b".
Proof.
  apply (trim_removes_frame " " "a  b" (String newline " ")).
  - by repeat split.
  - by repeat split.
  - solve_trimmed.
Defined.

(** ** pack *)

Section Pack.

Lemma app_inj_r s t u : s +:+ u = t +:+ u → s = t.
Proof.
  intros H. apply (f_equal String.rev) in H. rewrite !rev_app_distr in H.
  apply String.app_inj in H. by rewrite <- (rev_involutive s), H, rev_involutive.
Qed.

Lemma find_char_start s c : find_char s c 0 = index_of_char c s 0.
Proof.
  unfold find_char. pose proof (size_nonneg s).
  by destruct (size s <? 0) eqn:E; [lia|].
Qed.

Lemma find_newline_packed s :
  find_char s newline 0 ≠ npos →
  size (YSO_MULLN_STR +:+ s +:+ YSO_MULLN_STR) ≤ npos →
  find_char (YSO_MULLN_STR +:+ s +:+ YSO_MULLN_STR) newline 0 ≠ npos.
Proof.
  rewrite !find_char_start.
  destruct (index_of_char_cases newline s 0) as [[_ ->]|(p & q & -> & Hp & _)];
    [done|].
  intros _ Hsize.
  replace (YSO_MULLN_STR +:+ (p +:+ String newline q) +:+ YSO_MULLN_STR)
    with ((YSO_MULLN_STR +:+ p) +:+ String newline (q +:+ YSO_MULLN_STR)) in *
    by (by rewrite !app_assoc, app_cons).
  rewrite index_of_char_found by (by rewrite has_char_app, Hp).
  rewrite !size_app, size_cons, size_app in Hsize.
  rewrite size_app. pose proof (size_nonneg p). pose proof (size_nonneg q).
  pose proof (size_nonneg YSO_MULLN_STR). lia.
Qed.

End Pack.

(** X16: [pack] loses nothing: two strings that pack to the same string are the
    same string (for packed strings of a size a [size_t] can tell). *)
Theorem pack_injective (s1 s2 : string) :
  size (YSOSection.pack s1) ≤ npos →
  size (YSOSection.pack s2) ≤ npos →
  YSOSection.pack s1 = YSOSection.pack s2 → s1 = s2.
Proof.
  unfold YSOSection.pack.
  destruct (find_char s1 newline 0 =? npos) eqn:E1;
    destruct (find_char s2 newline 0 =? npos) eqn:E2; simpl;
    intros Hs1 Hs2 H.
  - done.
  - apply Z.eqb_eq in E1. apply Z.eqb_neq in E2.
    apply find_newline_packed in E2; [|done]. by rewrite <- H in E2.
  - apply Z.eqb_eq in E2. apply Z.eqb_neq in E1.
    apply find_newline_packed in E1; [|done]. by rewrite H in E1.
  - apply String.app_inj in H. by apply app_inj_r in H.
Qed.

Lemma pack_injective_witness :
  "line1" +:+ String newline "line2" = "line1" +:+ String newline "line2".
Proof.
  apply (pack_injective ("line1" +:+ String newline "line2")
           ("line1" +:+ String newline "line2")).
  - vm_compute. discriminate.
  - vm_compute. discriminate.
  - reflexivity.
Defined.

(** ** The containers *)

Section Containers.

Lemma section_contains_true (m : YSOSection.t) key :
  YSOSection.contains m key = true ↔ is_Some (m !! key).
Proof. unfold YSOSection.contains. apply bool_decide_eq_true. Qed.

Lemma object_contains_true (o : YumStudioObject.t) name :
  YumStudioObject.contains o name = true ↔ is_Some (o !! name).
Proof. unfold YumStudioObject.contains. apply bool_decide_eq_true. Qed.

Lemma section_index_const_Some (m : YSOSection.t) key v :
  m !! key = Some v → YSOSection.index_const m key = Ok v.
Proof.
  intros H. unfold YSOSection.index_const.
  rewrite (proj2 (section_contains_true m key)) by eauto. by rewrite H.
Qed.

Lemma object_index_const_Some (o : YumStudioObject.t) name v :
  o !! name = Some v → YumStudioObject.index_const o name = Ok v.
Proof.
  intros H. unfold YumStudioObject.index_const.
  rewrite (proj2 (object_contains_true o name)) by eauto. by rewrite H.
Qed.

End Containers.

(** X17: The const [operator[]] of both classes returns the stored value exactly
    for the keys [contains] reports, and otherwise throws the
    [std::out_of_range] that names the key; the [at] it calls never
    throws. *)
Theorem index_const_agrees_with_contains
    (object : YumStudioObject.t) (section : YSOSection.t) (key : string) :
  match section !! key with
  | Some v => YSOSection.contains section key = true
              ∧ YSOSection.index_const section key = Ok v
  | None => YSOSection.contains section key = false
            ∧ YSOSection.index_const section key
              = Throw (out_of_range ("YumStudioObject: key not found '" +:+ key +:+ "'"))
  end
  ∧ match object !! key with
    | Some v => YumStudioObject.contains object key = true
                ∧ YumStudioObject.index_const object key = Ok v
    | None => YumStudioObject.contains object key = false
              ∧ YumStudioObject.index_const object key
                = Throw (out_of_range ("YumStudioObject: key not found '" +:+ key +:+ "'"))
    end.
Proof.
  split.
  - destruct (section !! key) as [v|] eqn:E.
    + split; [apply section_contains_true; eauto|by apply section_index_const_Some].
    + assert (YSOSection.contains section key = false) as Hc.
      { apply not_true_is_false. rewrite section_contains_true, E. by intros [? ?]. }
      unfold YSOSection.index_const. by rewrite Hc.
  - destruct (object !! key) as [v|] eqn:E.
    + split; [apply object_contains_true; eauto|by apply object_index_const_Some].
    + assert (YumStudioObject.contains object key = false) as Hc.
      { apply not_true_is_false. rewrite object_contains_true, E. by intros [? ?]. }
      unfold YumStudioObject.index_const. by rewrite Hc.
Qed.

(** X18: Assigning through the non-const [operator[]] and looking up: the key
    assigned is contained and the const lookup returns the value assigned,
    replacing any earlier one; lookups of other keys are as before. *)
Theorem assign_then_lookup (m : YSOSection.t) (key v other : string) :
  other ≠ key →
  YSOSection.contains (YSOSection.assign m key v) key = true
  ∧ YSOSection.index_const (YSOSection.assign m key v) key = Ok v
  ∧ YSOSection.contains (YSOSection.assign m key v) other = YSOSection.contains m other
  ∧ YSOSection.index_const (YSOSection.assign m key v) other
    = YSOSection.index_const m other.
Proof.
  intros Hne. unfold YSOSection.assign.
  assert (YSOSection.contains (<[key := v]> m) other = YSOSection.contains m other) as Hc.
  { unfold YSOSection.contains. by rewrite lookup_insert_ne. }
  split; [apply section_contains_true; rewrite lookup_insert_eq; eauto|].
  split; [apply section_index_const_Some, lookup_insert_eq|].
  split; [done|].
  unfold YSOSection.index_const. by rewrite Hc, lookup_insert_ne.
Qed.

Lemma assign_then_lookup_witness :
  let m : YSOSection.t := {[ "name" := "demo"; "mode" := "fast" ]} in
  YSOSection.contains (YSOSection.assign m "name" "other") "name" = true
  ∧ YSOSection.index_const (YSOSection.assign m "name" "other") "name" = Ok "other"
  ∧ YSOSection.contains (YSOSection.assign m "name" "other") "mode"
    = YSOSection.contains m "mode"
  ∧ YSOSection.index_const (YSOSection.assign m "name" "other") "mode"
    = YSOSection.index_const m "mode".
Proof.
  apply (assign_then_lookup {[ "name" := "demo"; "mode" := "fast" ]}
           "name" "other" "mode").
  discriminate.
Defined.

(** X19: Reading through the non-const [operator[]] changes the container when
    the key is missing: the key is created with the empty string (an empty
    section, in an object), so [contains] holds afterwards and the const
    lookup returns what was read.  A key that is present is read without a
    change.  Other keys are never touched. *)
Theorem index_creates_missing_key
    (object : YumStudioObject.t) (section : YSOSection.t) (key : string) :
  (let (v, section') := YSOSection.index section key in
   YSOSection.contains section' key = true
   ∧ YSOSection.index_const section' key = Ok v
   ∧ (∀ other, other ≠ key → section' !! other = section !! other)
   ∧ match section !! key with
     | Some _ => section' = section
     | None => v = EmptyString ∧ base.size section' = S (base.size section)
     end)
  ∧ (let (s, object') := YumStudioObject.index object key in
     YumStudioObject.contains object' key = true
     ∧ YumStudioObject.index_const object' key = Ok s
     ∧ (∀ other, other ≠ key → object' !! other = object !! other)
     ∧ match object !! key with
       | Some _ => object' = object
       | None => s = ∅ ∧ base.size object' = S (base.size object)
       end).
Proof.
  split.
  - unfold YSOSection.index. destruct (section !! key) as [v|] eqn:E.
    + split; [apply section_contains_true; eauto|].
      split; [by apply section_index_const_Some|done].
    + split; [apply section_contains_true; rewrite lookup_insert_eq; eauto|].
      split; [apply section_index_const_Some, lookup_insert_eq|].
      split; [intros other Hne; by rewrite lookup_insert_ne|].
      split; [done|by apply map_size_insert_None].
  - unfold YumStudioObject.index. destruct (object !! key) as [v|] eqn:E.
    + split; [apply object_contains_true; eauto|].
      split; [by apply object_index_const_Some|done].
    + split; [apply object_contains_true; rewrite lookup_insert_eq; eauto|].
      split; [apply object_index_const_Some, lookup_insert_eq|].
      split; [intros other Hne; by rewrite lookup_insert_ne|].
      split; [done|by apply map_size_insert_None].
Qed.

Lemma index_creates_missing_key_witness :
  let r := YSOSection.index {[ "name" := "demo" ]} "mode" in
  YSOSection.contains r.2 "mode" = true
  ∧ YSOSection.index_const r.2 "mode" = Ok r.1
  ∧ r.1 = EmptyString.
Proof.
  pose proof (proj1 (index_creates_missing_key ∅ {[ "name" := "demo" ]} "mode")) as H.
  destruct (YSOSection.index {[ "name" := "demo" ]} "mode") as [v section'].
  destruct H as (H1 & H2 & _ & H3 & _). simpl. done.
Defined.

(** X12: for a one-section object whose section already holds the empty
    key with the empty value, the text in the layout [save] streams (as in
    X10) parses exactly to the object: the blank line stores the entry that
    is there already. *)
Theorem section_text_parses_exactly_with_empty_entry
    (name header : string) (m : YSOSection.t) (entries : list (string * string)) :
  entries ≡ₚ map_to_list m →
  Forall plain_entry entries →
  ignored_line header →
  has_char newline name = false →
  has_char "]" name = false →
  trimmed name →
  size (header_line name) ≤ npos →
  m !! EmptyString = Some EmptyString →
  parse (open (text_of_lines [header; header_line name]
               +:+ YSOSection.to_string_over entries +:+ String newline EmptyString))
  = Some (Ok {[ name := m ]}).
Proof.
  intros Hp Hall Hheader Hnl Hname Htrim Hsize Hempty.
  rewrite (parse_section_text name header m entries) by done.
  by rewrite insert_id.
Qed.

Lemma section_text_parses_exactly_with_empty_entry_witness :
  parse (open (text_of_lines [EmptyString; header_line "general"]
               +:+ YSOSection.to_string_over [("name", "demo"); ("", "")]
               +:+ String newline EmptyString))
  = Some (Ok {[ "general" := {[ "name" := "demo"; "" := "" ]} ]}).
Proof.
  apply (section_text_parses_exactly_with_empty_entry "general" EmptyString
           {[ "name" := "demo"; "" := "" ]} [("name", "demo"); ("", "")]).
  - vm_compute. first [ reflexivity | apply perm_swap ].
  - solve_plain_entries.
  - split; reflexivity.
  - reflexivity.
  - reflexivity.
  - solve_trimmed.
  - vm_compute. discriminate.
  - reflexivity.
Defined.
